(** * Conway's Game of Life on a torus (src/main.cpp)

    A shallow embedding of the simulation core of the SDL3 Game of Life:
    the two global cell buffers [Grid] and [NewGrid], the seeding routine
    [initGrid], the neighbour scan [getNeighborCount], the generation
    update [updateGrid] and the event/iterate callbacks that drive them.

    The C++ code works on two process-wide [std::vector<std::vector<Uint8>>]
    objects that are passed around by reference.  The embedding keeps that
    shape: a record of globals, references naming one of the two buffers,
    and a small monad that threads the globals, fails on an out-of-range
    [operator[]] and records every element access that is performed. *)

From Stdlib Require Import ZArith Lia Bool.
From stdpp Require Import base list.

Local Open Scope Z_scope.

(** ** Machine integers *)

Definition INT_MAX : Z := 2147483647.

(** Conversion to [Uint32] (reduction modulo 2^32). *)
Definition to_Uint32 (z : Z) : Z := z mod 4294967296.

(** Conversion to [Uint8] (reduction modulo 2^8). *)
Definition to_Uint8 (z : Z) : Z := z mod 256.

(** Conversion of a [Uint32] value to [int] (two's complement). *)
Definition to_int (z : Z) : Z :=
  let u := to_Uint32 z in if u <=? INT_MAX then u else u - 4294967296.

(** ** Settings (lines 9-17) *)

Module Settings.
Definition WindowWidth : Z := 1600.
Definition WindowHeight : Z := 900.
Definition CellSize : Z := 2.
Definition Columns : Z := to_Uint32 (WindowWidth / CellSize).
Definition Rows : Z := to_Uint32 (WindowHeight / CellSize).
Definition FPS : Z := 12.
Definition FrameDuration : Z := to_Uint32 (1000 / FPS).
End Settings.

(** ** Cells and buffers *)

(** [0 == dead, 1 == alive] (comment of [initGrid]). *)
Definition DEAD : Z := 0.
Definition ALIVE : Z := 1.

(** A [std::vector<std::vector<Uint8>>]. *)
Abbreviation matrix := (list (list Z)).

(** [v[i]] for an [int] index: a negative index converts to a huge
    [size_t], so it is out of range like any index past the end. *)
Definition at_ {A : Type} (v : list A) (i : Z) : option A :=
  if i <? 0 then None else v !! Z.to_nat i.

(** Reading [m[r][c]]. *)
Definition matrix_get (m : matrix) (r c : Z) : option Z :=
  match at_ m r with
  | Some row => at_ row c
  | None => None
  end.

(** Writing [m[r][c] = v]; undefined (here: [None]) out of range. *)
Definition matrix_set (m : matrix) (r c v : Z) : option matrix :=
  match at_ m r with
  | Some row =>
      match at_ row c with
      | Some _ => Some (<[Z.to_nat r := <[Z.to_nat c := v]> row]> m)
      | None => None
      end
  | None => None
  end.

(** [std::vector<std::vector<Uint8>>{rows, std::vector<Uint8>(columns, 0)}]. *)
Definition zero_matrix (rows columns : Z) : matrix :=
  replicate (Z.to_nat rows) (replicate (Z.to_nat columns) 0).

(** ** Globals, references and the access-recording monad *)

(** The process-wide state: the two buffers of lines 29 and 32 and the
    number of [std::rand] calls made so far. *)
Record Globals : Type := mkGlobals {
  Grid : matrix;
  NewGrid : matrix;
  rand_calls : nat
}.

(** A reference to one of the two global buffers. *)
Inductive ref : Type := RefGrid | RefNewGrid.

Definition deref (b : ref) (w : Globals) : matrix :=
  match b with RefGrid => Grid w | RefNewGrid => NewGrid w end.

Definition assign_ref (b : ref) (m : matrix) (w : Globals) : Globals :=
  match b with
  | RefGrid => mkGlobals m (NewGrid w) (rand_calls w)
  | RefNewGrid => mkGlobals (Grid w) m (rand_calls w)
  end.

(** What a computation did to the buffers, in program order. *)
Inductive access : Type :=
  | Load (b : ref) (row col : Z)
  | Store (b : ref) (row col : Z) (v : Z)
  | CopyAssign (dst src : ref).

(** State, failure (an out-of-range element access) and an access log. *)
Definition M (A : Type) : Type := Globals -> option (A * Globals * list access).

Definition ret {A : Type} (a : A) : M A := fun w => Some (a, w, []).

Definition bind {A B : Type} (m : M A) (f : A -> M B) : M B :=
  fun w =>
    match m w with
    | Some (a, w1, t1) =>
        match f a w1 with
        | Some (b, w2, t2) => Some (b, w2, t1 ++ t2)
        | None => None
        end
    | None => None
    end.

Declare Scope gol_scope.
Delimit Scope gol_scope with gol.
Notation "'do' x <- m ; k" := (bind m (fun x => k))
  (at level 10, x name, m at level 100, k at level 200, only parsing) : gol_scope.
Local Open Scope gol_scope.

(** [grid[row][col]] as an rvalue. *)
Definition load (b : ref) (row col : Z) : M Z :=
  fun w =>
    match matrix_get (deref b w) row col with
    | Some x => Some (x, w, [Load b row col])
    | None => None
    end.

(** [grid[row][col] = v]. *)
Definition store (b : ref) (row col v : Z) : M unit :=
  fun w =>
    match matrix_set (deref b w) row col v with
    | Some m => Some (tt, assign_ref b m w, [Store b row col v])
    | None => None
    end.

(** [dst = src] on whole vectors (copy assignment). *)
Definition copy_assign (dst src : ref) : M unit :=
  fun w => Some (tt, assign_ref dst (deref src w) w, [CopyAssign dst src]).

(** The indices [lo, lo+1, ..., lo+n-1]. *)
Fixpoint range (lo : Z) (n : nat) : list Z :=
  match n with
  | O => []
  | S n' => lo :: range (lo + 1) n'
  end.

(** Running a loop body over a list of indices, threading the locals. *)
Fixpoint for_each {A : Type} (idx : list Z) (body : Z -> A -> M A) (a : A) : M A :=
  match idx with
  | [] => ret a
  | i :: idx' => do a' <- body i a; for_each idx' body a'
  end.

(** [for (int i = lo; i < hi; ++i) body]. Where [hi] is a [Uint32]
    dimension the comparison is unsigned; [i] starts at 0 and is never
    negative, so it is the comparison of the numbers. *)
Definition for_int {A : Type} (lo hi : Z) (body : Z -> A -> M A) (a : A) : M A :=
  for_each (range lo (Z.to_nat (hi - lo))) body a.

(** [for (int i = lo; i <= hi; ++i) body]. *)
Definition for_int_le {A : Type} (lo hi : Z) (body : Z -> A -> M A) (a : A) : M A :=
  for_int lo (hi + 1) body a.

(** ** The SDL side of the callbacks *)

Inductive SDL_AppResult : Type := SDL_APP_CONTINUE | SDL_APP_SUCCESS | SDL_APP_FAILURE.

(** The keys and events [SDL_AppEvent] distinguishes. *)
Inductive SDL_Keycode : Type := SDLK_SPACE | SDLK_R | SDLK_OTHER.

Inductive SDL_Event : Type :=
  | SDL_EVENT_QUIT
  | SDL_EVENT_KEY_DOWN (key : SDL_Keycode)
  | SDL_EVENT_OTHER.

(** [struct Application] (lines 20-26); the two pointers are opaque handles. *)
Record Application : Type := mkApplication {
  window : Z;
  renderer : Z;
  status : SDL_AppResult;
  runSimulation : bool
}.

(** The rectangle handed to [SDL_RenderFillRect]. Its fields are [float]s
    holding [int] products; they are kept here as the integers
    themselves, which is exact as long as these are at most 2^24
    ([FLOAT_EXACT_MAX] below), as they are in the shipped configuration.
    Statements about the coordinates carry that bound. *)
Module Rect.
Record SDL_FRect : Type := mkFRect { x : Z; y : Z; w : Z; h : Z }.
End Rect.
Abbreviation SDL_FRect := Rect.SDL_FRect.
Abbreviation mkFRect := Rect.mkFRect.

(** A [Uint8] used as a condition: any non-zero value is true. *)
Definition truthy (v : Z) : bool := negb (v =? 0).

(** ** Small configurations used to exercise the theorems *)

Module Samples.

(** A stand-in for the values of [std::rand]. *)
Definition sample_rand (n : nat) : Z := Z.of_nat (n * n + 3 * n).

Definition zeros_3x4 : matrix := [[0; 0; 0; 0]; [0; 0; 0; 0]; [0; 0; 0; 0]].

Definition glider_3x4 : matrix := [[0; 1; 0; 0]; [0; 0; 1; 0]; [1; 1; 1; 0]].

Definition other_3x4 : matrix := [[1; 1; 1; 1]; [0; 1; 0; 1]; [1; 0; 0; 1]].

(** Current buffer holding a pattern, staging buffer empty. *)
Definition globals_3x4 : Globals := mkGlobals glider_3x4 zeros_3x4 0.

(** The same current buffer over a different staging buffer. *)
Definition globals_3x4' : Globals := mkGlobals glider_3x4 other_3x4 5.

Definition empty_3x4 : Globals := mkGlobals zeros_3x4 other_3x4 0.

(** A single row, a degenerate torus. *)
Definition globals_1x3 : Globals := mkGlobals [[1; 0; 1]] [[0; 0; 0]] 0.

(** A single live cell that is its own eight neighbours. *)
Definition globals_1x1 : Globals := mkGlobals [[1]] [[0]] 0.

(** The horizontal blinker centred at the corner (0, 0) of a 4 x 4 torus. *)
Definition blinker_4x4 : Globals :=
  mkGlobals [[1; 1; 0; 1]; [0; 0; 0; 0]; [0; 0; 0; 0]; [0; 0; 0; 0]]
            [[0; 0; 0; 0]; [0; 0; 0; 0]; [0; 0; 0; 0]; [0; 0; 0; 0]] 0.

Definition paused_app : Application := mkApplication 1 2 SDL_APP_CONTINUE false.

Definition running_app : Application := mkApplication 1 2 SDL_APP_CONTINUE true.

(** A horizontal line of three on a 3 x 3 torus: it fills its row. *)
Definition line_3x3 : Globals :=
  mkGlobals [[0; 0; 0]; [1; 1; 1]; [0; 0; 0]] [[0; 0; 0]; [0; 0; 0]; [0; 0; 0]] 0.

(** One live cell in the middle of a 3 x 3 torus. *)
Definition lone_3x3 : Globals :=
  mkGlobals [[0; 0; 0]; [0; 1; 0]; [0; 0; 0]] [[0; 0; 0]; [0; 0; 0]; [0; 0; 0]] 0.

(** The 2 x 2 block whose top-left cell is the corner (3, 3) of a 4 x 4
    torus: it lies across both edges. *)
Definition block_4x4 : Globals :=
  mkGlobals [[1; 0; 0; 1]; [0; 0; 0; 0]; [0; 0; 0; 0]; [1; 0; 0; 1]]
            [[0; 0; 0; 0]; [0; 0; 0; 0]; [0; 0; 0; 0]; [0; 0; 0; 0]] 0.

(** [glider_3x4] moved by (1, 1) around the torus. *)
Definition moved_3x4 : Globals :=
  mkGlobals [[0; 1; 0; 0]; [1; 1; 0; 1]; [1; 0; 0; 0]] zeros_3x4 0.

(** [glider_3x4] with other non-zero bytes in its live cells. *)
Definition bytes_3x4 : Globals :=
  mkGlobals [[0; 7; 0; 0]; [0; 0; 255; 0]; [2; 1; 9; 0]] other_3x4 0.

Definition quitting_app : Application := mkApplication 1 2 SDL_APP_SUCCESS true.

End Samples.

(** ** The program *)

Section Program.

(** The grid dimensions ([Settings.Rows] and [Settings.Columns] in the
    shipped configuration) and the values [std::rand] returns, in call
    order, after [std::srand]. *)
Variables Rows Columns : Z.
Variable std_rand : nat -> Z.

Definition rand : M Z :=
  fun w => Some (std_rand (rand_calls w),
                 mkGlobals (Grid w) (NewGrid w) (S (rand_calls w)), []).

(** Lines 35-44. [%] on two [int]s truncates, hence [Z.rem]. *)
Definition initGrid (grid : ref) : M unit :=
  for_int 0 Rows (fun r _ =>
    for_int 0 Columns (fun c _ =>
      do v <- rand;
      store grid r c (if Z.rem v 100 <? 10 then 1 else 0)) tt) tt.

(** Lines 47-68; the result is the list of rectangles filled. *)
Definition drawGrid (grid : ref) : M (list SDL_FRect) :=
  for_int 0 Rows (fun r out =>
    for_int 0 Columns (fun c out =>
      do v <- load grid r c;
      if truthy v then
        ret (out ++ [mkFRect (c * Settings.CellSize) (r * Settings.CellSize)
                             Settings.CellSize Settings.CellSize])
      else ret out) out) [].

(** [(i + d + n) % n] as line 88 computes it: [i + d] is an [int], adding
    the [Uint32] dimension converts the sum to [Uint32], the remainder is
    unsigned, and the result is stored in an [int]. *)
Definition wrap_index (i d n : Z) : Z :=
  to_int (to_Uint32 (to_Uint32 (i + d) + n) mod n).

(** Lines 71-99. *)
Definition getNeighborCount (grid : ref) (row column : Z) : M Z :=
  for_int_le (-1) 1 (fun r count =>
    for_int_le (-1) 1 (fun c count =>
      if (r =? 0) && (c =? 0) then ret count
      else
        let destRow := wrap_index row r Rows in
        let destColumn := wrap_index column c Columns in
        do v <- load grid destRow destColumn;
        if truthy v then ret (to_Uint8 (count + 1)) else ret count) count) 0.

(** The loops of [updateGrid], lines 104-135: the spec's [step]. *)
Definition step (grid newGrid : ref) : M unit :=
  for_int 0 Rows (fun r _ =>
    for_int 0 Columns (fun c _ =>
      do neighborCount <- getNeighborCount grid r c;
      do v <- load grid r c;
      if truthy v then
        if (neighborCount <? 2) || (neighborCount >? 3) then store newGrid r c 0
        else store newGrid r c 1
      else
        if neighborCount =? 3 then store newGrid r c 1
        else store newGrid r c 0) tt) tt.

(** Line 136, [grid = newGrid;]: the spec's [commit]. *)
Definition commit (grid newGrid : ref) : M unit := copy_assign grid newGrid.

(** Lines 102-137. *)
Definition updateGrid (grid newGrid : ref) : M unit :=
  do _ <- step grid newGrid;
  commit grid newGrid.

(** Lines 140-172. Whether [SDL_Init] and [SDL_CreateWindowAndRenderer]
    succeed, and the handles the latter yields, are inputs. *)
Definition SDL_AppInit (init_ok create_ok : bool) (win ren : Z)
  : M (SDL_AppResult * option Application) :=
  if negb init_ok then ret (SDL_APP_FAILURE, None)
  else if negb create_ok then ret (SDL_APP_FAILURE, None)
  else
    do _ <- initGrid RefGrid;
    ret (SDL_APP_CONTINUE, Some (mkApplication win ren SDL_APP_CONTINUE true)).

(** Lines 175-197. *)
Definition SDL_AppEvent (app : Application) (event : SDL_Event)
  : M (SDL_AppResult * Application) :=
  match event with
  | SDL_EVENT_QUIT =>
      ret (SDL_APP_CONTINUE,
           mkApplication (window app) (renderer app) SDL_APP_SUCCESS (runSimulation app))
  | SDL_EVENT_KEY_DOWN SDLK_SPACE =>
      ret (SDL_APP_CONTINUE,
           mkApplication (window app) (renderer app) (status app) (negb (runSimulation app)))
  | SDL_EVENT_KEY_DOWN SDLK_R =>
      do _ <- initGrid RefGrid;
      ret (SDL_APP_CONTINUE, app)
  | _ => ret (SDL_APP_CONTINUE, app)
  end.

(** Lines 200-230; clearing, presenting and frame pacing touch no
    program state. The rectangles drawn are returned with the status. *)
Definition SDL_AppIterate (app : Application) : M (SDL_AppResult * list SDL_FRect) :=
  do rects <- drawGrid RefGrid;
  do _ <- (if runSimulation app then updateGrid RefGrid RefNewGrid else ret tt);
  ret (status app, rects).

(** What SDL's main loop does after [SDL_AppInit]: it delivers events to
    [SDL_AppEvent] and calls [SDL_AppIterate] once per frame, in some
    order, passing the [Application] record along. *)
Inductive callback : Type :=
  | OnEvent (event : SDL_Event)
  | OnIterate.

Definition run_callback (app : Application) (cb : callback) : M Application :=
  match cb with
  | OnEvent event => do res <- SDL_AppEvent app event; ret (snd res)
  | OnIterate => do _ <- SDL_AppIterate app; ret app
  end.

Fixpoint run_callbacks (app : Application) (cbs : list callback) : M Application :=
  match cbs with
  | [] => ret app
  | cb :: cbs' => do app' <- run_callback app cb; run_callbacks app' cbs'
  end.

(** The globals as their initialisers leave them (lines 29 and 32). *)
Definition initial_globals : Globals :=
  mkGlobals (zero_matrix Rows Columns) (zero_matrix Rows Columns) 0.

(** ** Vocabulary of the statements *)

(** A buffer of [Rows] rows of [Columns] cells each. *)
Definition well_shaped (m : matrix) : Prop :=
  length m = Z.to_nat Rows /\ Forall (fun row => length row = Z.to_nat Columns) m.

Definition in_range (r c : Z) : Prop := 0 <= r < Rows /\ 0 <= c < Columns.

(** The cell at an in-range coordinate (0 elsewhere). *)
Definition cell (m : matrix) (r c : Z) : Z := default 0 (matrix_get m r c).

(** Every in-range coordinate has a defined value, DEAD or ALIVE. *)
Definition binary (m : matrix) : Prop :=
  forall r c, in_range r c ->
    matrix_get m r c = Some DEAD \/ matrix_get m r c = Some ALIVE.

(** The eight neighbour offsets, in the order the two loops of
    [getNeighborCount] visit them. *)
Definition offsets : list (Z * Z) :=
  [(-1, -1); (-1, 0); (-1, 1); (0, -1); (0, 1); (1, -1); (1, 0); (1, 1)].

(** The coordinates of the neighbours of [(row, column)] on the torus. *)
Definition neighbors (row column : Z) : list (Z * Z) :=
  (fun d => ((row + fst d) mod Rows, (column + snd d) mod Columns)) <$> offsets.

(** How many of the listed cells hold a non-zero value. *)
Definition count_alive (m : matrix) (cells : list (Z * Z)) : Z :=
  foldr (fun p n => (if truthy (cell m (fst p) (snd p)) then 1 else 0) + n) 0 cells.

(** The transition rule as the spec words it, on a cell value and the
    number of its live neighbours. *)
Definition rule (v n : Z) : Z :=
  if truthy v then (if (n <? 2) || (n >? 3) then DEAD else ALIVE)
  else (if n =? 3 then ALIVE else DEAD).

(** The buffer with [f r c] in every cell. *)
Definition tabulate (f : Z -> Z -> Z) : matrix :=
  (fun r => (fun c => f r c) <$> range 0 (Z.to_nat Columns))
    <$> range 0 (Z.to_nat Rows).

(** [m] is [m0] with the cells that precede [(r, k)] in row-major order
    overwritten by [f]: the state of a buffer part-way through the two
    nested loops that fill it. *)
Definition filled (f : Z -> Z -> Z) (m0 m : matrix) (r k : Z) : Prop :=
  well_shaped m /\
  forall i j, in_range i j ->
    cell m i j = if (i <? r) || ((i =? r) && (j <? k)) then f i j else cell m0 i j.

(** The value [initGrid] writes to [(r, c)] when [n0] calls of
    [std::rand] have been made before it starts. *)
Definition seeded (n0 : nat) (r c : Z) : Z :=
  if Z.rem (std_rand (n0 + Z.to_nat (r * Columns + c))%nat) 100 <? 10 then 1 else 0.

Definition set_rand_calls (n : nat) (w : Globals) : Globals :=
  mkGlobals (Grid w) (NewGrid w) n.

(** What [initGrid grid] may do to the buffers: write binary values to
    in-range cells of [grid]. *)
Definition seed_access (grid : ref) (e : access) : Prop :=
  match e with
  | Store b r c v => b = grid /\ in_range r c /\ (v = DEAD \/ v = ALIVE)
  | _ => False
  end.

(** What [drawGrid grid] may do to the buffers: read in-range cells. *)
Definition draw_access (grid : ref) (e : access) : Prop :=
  match e with
  | Load b r c => b = grid /\ in_range r c
  | _ => False
  end.

(** The generation that follows [m]. *)
Definition next_generation (m : matrix) : matrix :=
  tabulate (fun r c => rule (cell m r c) (count_alive m (neighbors r c))).

(** What [step grid newGrid] may do to the buffers: read in-range cells
    of [grid], and write binary values to in-range cells of [newGrid]. *)
Definition step_access (grid newGrid : ref) (e : access) : Prop :=
  match e with
  | Load b r c => b = grid /\ in_range r c
  | Store b r c v => b = newGrid /\ in_range r c /\ (v = DEAD \/ v = ALIVE)
  | CopyAssign _ _ => False
  end.

(** Both global buffers have the configured shape and hold binary cells. *)
Definition grid_invariant (w : Globals) : Prop :=
  (well_shaped (Grid w) /\ binary (Grid w)) /\
  (well_shaped (NewGrid w) /\ binary (NewGrid w)).

(** The operations of the Grid Store and the Evolution Engine as the
    driver invokes them. *)
Inductive operation : Type := OpSeed | OpStep | OpCommit | OpUpdate.

Definition run_operation (o : operation) : M unit :=
  match o with
  | OpSeed => initGrid RefGrid
  | OpStep => step RefGrid RefNewGrid
  | OpCommit => commit RefGrid RefNewGrid
  | OpUpdate => updateGrid RefGrid RefNewGrid
  end.

(** The cells of [m] that are ALIVE are exactly those listed; all others
    are DEAD. *)
Definition alive_exactly (m : matrix) (cells : list (Z * Z)) : Prop :=
  well_shaped m /\
  forall r c, in_range r c ->
    cell m r c = if bool_decide ((r, c) ∈ cells) then ALIVE else DEAD.

(** On a ring of [n] positions, [q] is the centre [p] or one of its two
    neighbours. *)
Definition near_center (n p q : Z) : bool :=
  (q =? (p + -1) mod n) || (q =? p) || (q =? (p + 1) mod n).

(** The two phases of the blinker centred at [(r, c)], on the torus. *)
Definition blinker_horizontal (r c : Z) : list (Z * Z) :=
  [(r, (c - 1) mod Columns); (r, c); (r, (c + 1) mod Columns)].

Definition blinker_vertical (r c : Z) : list (Z * Z) :=
  [((r - 1) mod Rows, c); (r, c); ((r + 1) mod Rows, c)].

(** ** Vocabulary for the rest of the program *)

(** The rectangle [drawGrid] fills for the cell at [(r, c)] (lines 60-63). *)
Definition cell_rect (r c : Z) : SDL_FRect :=
  mkFRect (c * Settings.CellSize) (r * Settings.CellSize)
          Settings.CellSize Settings.CellSize.

(** The rectangles of the non-zero cells among the first [k] columns of
    row [r], left to right. *)
Definition row_rects (m : matrix) (r : Z) (k : nat) : list SDL_FRect :=
  cell_rect r <$> List.filter (fun c => truthy (cell m r c)) (range 0 k).

(** The rectangles of the non-zero cells of the first [n] rows, row by
    row. *)
Definition rows_rects (m : matrix) (n k : nat) : list SDL_FRect :=
  concat ((fun r => row_rects m r k) <$> range 0 n).

Definition live_rects (m : matrix) : list SDL_FRect :=
  rows_rects m (Z.to_nat Rows) (Z.to_nat Columns).

(** [k] generations on from [m]. *)
Definition generations (k : nat) (m : matrix) : matrix :=
  Nat.iter k next_generation m.

(** [m2] is [m1] moved by [(dr, dc)] around the torus: the cell of [m2]
    at [(r, c)] is the cell of [m1] at [(r + dr, c + dc)], wrapped. *)
Definition shifted (dr dc : Z) (m1 m2 : matrix) : Prop :=
  well_shaped m1 /\ well_shaped m2 /\
  forall r c, in_range r c ->
    cell m2 r c = cell m1 ((r + dr) mod Rows) ((c + dc) mod Columns).

(** On a ring of [n] positions, [q] is [p] or the position after it. *)
Definition in_pair (n p q : Z) : bool := (q =? p) || (q =? (p + 1) mod n).

(** The 2 x 2 block whose top-left cell is [(r, c)], on the torus. *)
Definition block (r c : Z) : list (Z * Z) :=
  [(r, c); (r, (c + 1) mod Columns);
   ((r + 1) mod Rows, c); ((r + 1) mod Rows, (c + 1) mod Columns)].

(** Kinds of access, and how many accesses of a kind a log holds. *)
Definition is_load (e : access) : bool :=
  match e with Load _ _ _ => true | _ => false end.

Definition is_store (e : access) : bool :=
  match e with Store _ _ _ _ => true | _ => false end.

Definition count_accesses (kind : access -> bool) (t : list access) : nat :=
  length (List.filter kind t).


(** The grid whose only live cell is the last one, bottom right. *)
Definition corner_grid : matrix :=
  tabulate (fun r c => if (r =? Rows - 1) && (c =? Columns - 1) then ALIVE else DEAD).

(** The smallest [int]. *)
Definition INT_MIN : Z := - INT_MAX - 1.

(** * Verification *)

(** ** Machine arithmetic *)

Lemma to_Uint8_small (z : Z) : 0 <= z < 256 -> to_Uint8 z = z.
Proof. intros Hz. unfold to_Uint8. apply Z.mod_small. exact Hz. Qed.

Lemma to_Uint32_small (z : Z) : 0 <= z < 4294967296 -> to_Uint32 z = z.
Proof. intros Hz. unfold to_Uint32. apply Z.mod_small. exact Hz. Qed.

Lemma to_int_small (z : Z) : 0 <= z <= INT_MAX -> to_int z = z.
Proof.
  unfold to_int, INT_MAX. intros Hz.
  rewrite to_Uint32_small by lia.
  destruct (Z.leb_spec z 2147483647); lia.
Qed.

(** On an in-range index and an offset of -1, 0 or 1 the unsigned
    arithmetic of line 88 neither wraps at 2^32 nor leaves [int]: it is
    the mathematical residue. *)
Lemma wrap_index_mod (i d n : Z) :
  1 <= n <= INT_MAX -> 0 <= i < n -> -1 <= d <= 1 ->
  wrap_index i d n = (i + d) mod n.
Proof.
  unfold INT_MAX. intros Hn Hi Hd. unfold wrap_index.
  assert (Hsum : to_Uint32 (to_Uint32 (i + d) + n) = i + d + n).
  { unfold to_Uint32. rewrite Zplus_mod_idemp_l. apply Z.mod_small. lia. }
  rewrite Hsum.
  replace (i + d + n) with (i + d + 1 * n) by lia.
  rewrite Z_mod_plus_full.
  apply to_int_small.
  pose proof (Z.mod_pos_bound (i + d) n ltac:(lia)). unfold INT_MAX. lia.
Qed.

(** The residue of a neighbour index, without division. *)
Lemma mod_neighbor (i d n : Z) :
  1 <= n -> 0 <= i < n -> -1 <= d <= 1 ->
  (i + d) mod n =
    if i + d <? 0 then i + d + n else if n <=? i + d then i + d - n else i + d.
Proof.
  intros Hn Hi Hd.
  destruct (Z.ltb_spec (i + d) 0).
  - symmetry. apply (Z.mod_unique _ _ (-1)); lia.
  - destruct (Z.leb_spec n (i + d)).
    + symmetry. apply (Z.mod_unique _ _ 1); lia.
    + apply Z.mod_small. lia.
Qed.

(** ** Vectors and buffers *)

Lemma at_in_range {A : Type} (v : list A) (i : Z) :
  0 <= i < Z.of_nat (length v) -> is_Some (at_ v i).
Proof.
  intros Hi. unfold at_.
  destruct (Z.ltb_spec i 0); [lia |].
  apply lookup_lt_is_Some. lia.
Qed.

Lemma at_lookup {A : Type} (v : list A) (i : Z) :
  0 <= i -> at_ v i = v !! Z.to_nat i.
Proof. intros Hi. unfold at_. destruct (Z.ltb_spec i 0); [lia | reflexivity]. Qed.

Lemma well_shaped_row (m : matrix) (r : Z) :
  well_shaped m -> 0 <= r < Rows ->
  exists row, m !! Z.to_nat r = Some row /\ length row = Z.to_nat Columns.
Proof.
  intros [Hlen Hrows] Hr.
  destruct (lookup_lt_is_Some_2 m (Z.to_nat r)) as [row Hrow]; [lia |].
  exists row. split; [exact Hrow |].
  rewrite Forall_lookup in Hrows. exact (Hrows _ _ Hrow).
Qed.

Lemma matrix_get_in_range (m : matrix) (r c : Z) :
  well_shaped m -> in_range r c -> matrix_get m r c = Some (cell m r c).
Proof.
  intros Hm [Hr Hc].
  destruct (well_shaped_row m r Hm Hr) as (row & Hrow & Hlen).
  unfold cell, matrix_get. rewrite at_lookup by lia. rewrite Hrow.
  destruct (at_in_range row c ltac:(lia)) as [v Hv].
  rewrite Hv. reflexivity.
Qed.

(** A store at an in-range coordinate succeeds, keeps the shape, and
    changes that one cell only. *)
Lemma matrix_set_in_range (m : matrix) (r c v : Z) :
  well_shaped m -> in_range r c ->
  exists m', matrix_set m r c v = Some m' /\ well_shaped m' /\
    forall r' c', in_range r' c' ->
      cell m' r' c' = if (r' =? r) && (c' =? c) then v else cell m r' c'.
Proof.
  intros Hm [Hr Hc].
  destruct (well_shaped_row m r Hm Hr) as (row & Hrow & Hlen).
  unfold matrix_set. rewrite at_lookup by lia. rewrite Hrow.
  destruct (at_in_range row c ltac:(lia)) as [v0 Hv0]. rewrite Hv0.
  eexists. split; [reflexivity |]. split.
  - destruct Hm as [Hl Hf]. split.
    + rewrite length_insert. exact Hl.
    + apply Forall_insert; [exact Hf |]. rewrite length_insert. exact Hlen.
  - intros r' c' [Hr' Hc']. unfold cell, matrix_get.
    rewrite !(at_lookup _ r') by lia.
    destruct (Z.eqb_spec r' r) as [-> | Hne]; simpl.
    + rewrite list_lookup_insert_eq by (destruct Hm; lia).
      rewrite Hrow. rewrite !at_lookup by lia.
      destruct (Z.eqb_spec c' c) as [-> | Hnc].
      * rewrite list_lookup_insert_eq by lia. reflexivity.
      * rewrite list_lookup_insert_ne by lia. reflexivity.
    + rewrite list_lookup_insert_ne by lia. reflexivity.
Qed.

(** Two buffers of the configured shape with the same cells are equal. *)
Lemma matrix_ext (m1 m2 : matrix) :
  well_shaped m1 -> well_shaped m2 ->
  (forall r c, in_range r c -> cell m1 r c = cell m2 r c) ->
  m1 = m2.
Proof.
  intros H1 H2 Hcells.
  apply list_eq_same_length with (Z.to_nat Rows); [apply H2 | apply H1 |].
  intros i row1 row2 Hi Hrow1 Hrow2.
  assert (Hr : 0 <= Z.of_nat i < Rows) by lia.
  destruct (well_shaped_row m1 _ H1 Hr) as (row1' & Hrow1' & Hlen1).
  destruct (well_shaped_row m2 _ H2 Hr) as (row2' & Hrow2' & Hlen2).
  rewrite Nat2Z.id in Hrow1', Hrow2'.
  assert (row1' = row1) by congruence. assert (row2' = row2) by congruence. subst.
  apply list_eq_same_length with (Z.to_nat Columns); [exact Hlen2 | exact Hlen1 |].
  intros j v1 v2 Hj Hv1 Hv2.
  assert (Hc : 0 <= Z.of_nat j < Columns) by lia.
  specialize (Hcells (Z.of_nat i) (Z.of_nat j) (conj Hr Hc)).
  unfold cell, matrix_get in Hcells.
  rewrite !at_lookup in Hcells by lia.
  rewrite !Nat2Z.id in Hcells. rewrite Hrow1, Hrow2 in Hcells.
  rewrite !at_lookup in Hcells by lia. rewrite !Nat2Z.id in Hcells.
  rewrite Hv1, Hv2 in Hcells. exact Hcells.
Qed.

Lemma length_range (lo : Z) (n : nat) : length (range lo n) = n.
Proof. revert lo. induction n as [| n IH]; intros lo; simpl; [| rewrite IH]; reflexivity. Qed.

Lemma lookup_range (lo : Z) (n k : nat) :
  (k < n)%nat -> range lo n !! k = Some (lo + Z.of_nat k).
Proof.
  revert lo k. induction n as [| n IH]; intros lo k Hk; [lia |].
  destruct k as [| k]; simpl.
  - f_equal. lia.
  - rewrite IH by lia. f_equal. lia.
Qed.

Lemma range_snoc (lo : Z) (n : nat) :
  range lo (S n) = range lo n ++ [lo + Z.of_nat n].
Proof.
  revert lo. induction n as [| n IH]; intros lo.
  - simpl. f_equal. lia.
  - change (range lo (S (S n))) with (lo :: range (lo + 1) (S n)).
    rewrite IH. simpl. do 3 f_equal. lia.
Qed.

Lemma tabulate_well_shaped (f : Z -> Z -> Z) : well_shaped (tabulate f).
Proof.
  unfold tabulate. split.
  - rewrite length_fmap. apply length_range.
  - apply Forall_fmap. apply Forall_forall. intros r _. simpl.
    rewrite length_fmap. apply length_range.
Qed.

Lemma cell_tabulate (f : Z -> Z -> Z) (r c : Z) :
  in_range r c -> cell (tabulate f) r c = f r c.
Proof.
  intros [Hr Hc]. unfold cell, matrix_get, tabulate.
  rewrite at_lookup by lia. rewrite list_lookup_fmap.
  rewrite lookup_range by lia. simpl.
  rewrite at_lookup by lia. rewrite list_lookup_fmap.
  rewrite lookup_range by lia. simpl.
  f_equal; lia.
Qed.

Lemma zero_matrix_well_shaped : well_shaped (zero_matrix Rows Columns).
Proof.
  unfold zero_matrix. split.
  - apply length_replicate.
  - apply Forall_replicate. apply length_replicate.
Qed.

Lemma cell_zero_matrix (r c : Z) : cell (zero_matrix Rows Columns) r c = 0.
Proof.
  unfold cell, matrix_get, zero_matrix, at_.
  destruct (r <? 0); [reflexivity |].
  destruct (replicate _ _ !! Z.to_nat r) as [row |] eqn:Hrow; [| reflexivity].
  apply lookup_replicate in Hrow as [-> _].
  destruct (c <? 0); [reflexivity |].
  destruct (replicate _ _ !! Z.to_nat c) as [v |] eqn:Hv; [| reflexivity].
  apply lookup_replicate in Hv as [-> _]. reflexivity.
Qed.

(** ** References and the monad *)

Lemma deref_assign_same (b : ref) (m : matrix) (w : Globals) :
  deref b (assign_ref b m w) = m.
Proof. destruct b; reflexivity. Qed.

Lemma deref_assign_other (b b' : ref) (m : matrix) (w : Globals) :
  b <> b' -> deref b' (assign_ref b m w) = deref b' w.
Proof. destruct b, b'; intros Hne; try reflexivity; contradiction. Qed.

Lemma rand_calls_assign (b : ref) (m : matrix) (w : Globals) :
  rand_calls (assign_ref b m w) = rand_calls w.
Proof. destruct b; reflexivity. Qed.

Lemma assign_assign (b : ref) (m m' : matrix) (w : Globals) :
  assign_ref b m (assign_ref b m' w) = assign_ref b m w.
Proof. destruct b; reflexivity. Qed.

Lemma assign_deref (b : ref) (w : Globals) : assign_ref b (deref b w) w = w.
Proof. destruct b, w; reflexivity. Qed.

Lemma bind_Some {A B : Type} (m : M A) (f : A -> M B) (w : Globals)
      (a : A) (w1 : Globals) (t1 : list access) :
  m w = Some (a, w1, t1) ->
  bind m f w =
    match f a w1 with
    | Some (b, w2, t2) => Some (b, w2, t1 ++ t2)
    | None => None
    end.
Proof. intros Hm. unfold bind. rewrite Hm. reflexivity. Qed.

Lemma bind_ret {A B : Type} (a : A) (f : A -> M B) (w : Globals) :
  bind (ret a) f w = f a w.
Proof. unfold bind, ret. destruct (f a w) as [[[b w2] t2] |]; reflexivity. Qed.

Lemma if_ret {A : Type} (c : bool) (a1 a2 : A) (w : Globals) :
  (if c then ret a1 else ret a2) w = Some (if c then a1 else a2, w, []).
Proof. destruct c; reflexivity. Qed.

Lemma load_in_range (b : ref) (r c : Z) (w : Globals) :
  well_shaped (deref b w) -> in_range r c ->
  load b r c w = Some (cell (deref b w) r c, w, [Load b r c]).
Proof.
  intros Hm Hrc. unfold load. rewrite matrix_get_in_range by assumption. reflexivity.
Qed.

Lemma store_in_range (b : ref) (r c v : Z) (w : Globals) :
  well_shaped (deref b w) -> in_range r c ->
  exists m', store b r c v w = Some (tt, assign_ref b m' w, [Store b r c v]) /\
    well_shaped m' /\
    forall r' c', in_range r' c' ->
      cell m' r' c' = if (r' =? r) && (c' =? c) then v else cell (deref b w) r' c'.
Proof.
  intros Hm Hrc.
  destruct (matrix_set_in_range _ r c v Hm Hrc) as (m' & Hset & Hshape & Hcells).
  exists m'. unfold store. rewrite Hset. auto.
Qed.

(** ** Loops *)

(** The invariant rule for a loop over a list of indices: [I k] holds
    before the [k]-th iteration, and every access made satisfies [T]. *)
Lemma for_each_inv {A : Type} (I : nat -> A -> Globals -> Prop) (T : access -> Prop)
      (idx : list Z) (body : Z -> A -> M A) (a : A) (w : Globals) :
  I O a w ->
  (forall k i a w, idx !! k = Some i -> I k a w ->
     exists a' w' t, body i a w = Some (a', w', t) /\ I (S k) a' w' /\ Forall T t) ->
  exists a' w' t,
    for_each idx body a w = Some (a', w', t) /\ I (length idx) a' w' /\ Forall T t.
Proof.
  revert I a w. induction idx as [| i idx IH]; intros I a w H0 Hbody.
  - exists a, w, []. simpl. auto.
  - destruct (Hbody O i a w eq_refl H0) as (a1 & w1 & t1 & Hrun & H1 & HT1).
    destruct (IH (fun k => I (S k)) a1 w1 H1) as (a2 & w2 & t2 & Hrest & H2 & HT2).
    { intros k j a' w' Hj. apply (Hbody (S k) j a' w' Hj). }
    exists a2, w2, (t1 ++ t2). simpl.
    rewrite (bind_Some _ _ _ _ _ _ Hrun), Hrest.
    split; [reflexivity |]. split; [exact H2 |]. apply Forall_app. auto.
Qed.

(** The same rule for [for (int i = lo; i < hi; ++i)]. *)
Lemma for_int_inv {A : Type} (I : Z -> A -> Globals -> Prop) (T : access -> Prop)
      (lo hi : Z) (body : Z -> A -> M A) (a : A) (w : Globals) :
  lo <= hi ->
  I lo a w ->
  (forall i a w, lo <= i < hi -> I i a w ->
     exists a' w' t, body i a w = Some (a', w', t) /\ I (i + 1) a' w' /\ Forall T t) ->
  exists a' w' t,
    for_int lo hi body a w = Some (a', w', t) /\ I hi a' w' /\ Forall T t.
Proof.
  intros Hle H0 Hbody. unfold for_int.
  destruct (for_each_inv (fun k => I (lo + Z.of_nat k)) T
              (range lo (Z.to_nat (hi - lo))) body a w) as (a' & w' & t & Hrun & Hend & HT).
  - replace (lo + Z.of_nat 0) with lo by lia. exact H0.
  - intros k i a0 w0 Hk Hinv.
    assert (Hlt : (k < Z.to_nat (hi - lo))%nat).
    { apply lookup_lt_Some in Hk. rewrite length_range in Hk. exact Hk. }
    rewrite lookup_range in Hk by exact Hlt. injection Hk as <-.
    replace (lo + Z.of_nat (S k)) with (lo + Z.of_nat k + 1) by lia.
    apply Hbody; [lia | exact Hinv].
  - exists a', w', t. split; [exact Hrun |]. split; [| exact HT].
    rewrite length_range in Hend.
    replace (lo + Z.of_nat (Z.to_nat (hi - lo))) with hi in Hend by lia.
    exact Hend.
Qed.

(** ** The neighbour scan *)

(** The dimensions are positive and, since cells are indexed by [int],
    at most [INT_MAX]: past that bound [row + r] at the last representable
    row would overflow [int]. *)
Hypothesis Rows_range : 1 <= Rows <= INT_MAX.
Hypothesis Columns_range : 1 <= Columns <= INT_MAX.

Lemma run_bind {A B : Type} (m : M A) (f : A -> M B) (w w1 w2 : Globals)
      (a : A) (b : B) (t1 t2 : list access) :
  m w = Some (a, w1, t1) -> f a w1 = Some (b, w2, t2) ->
  bind m f w = Some (b, w2, t1 ++ t2).
Proof. intros Hm Hf. rewrite (bind_Some _ _ _ _ _ _ Hm), Hf. reflexivity. Qed.

Lemma in_range_mod (r c : Z) : in_range (r mod Rows) (c mod Columns).
Proof. split; apply Z.mod_pos_bound; lia. Qed.

Lemma count_step (grid : ref) (r c count : Z) (w : Globals) :
  well_shaped (deref grid w) -> in_range r c -> 0 <= count < 255 ->
  bind (load grid r c)
       (fun v => if truthy v then ret (to_Uint8 (count + 1)) else ret count) w =
  Some (count + (if truthy (cell (deref grid w) r c) then 1 else 0), w, [Load grid r c]).
Proof.
  intros Hm Hrc Hcount.
  rewrite (bind_Some _ _ _ _ _ _ (load_in_range _ _ _ _ Hm Hrc)).
  destruct (truthy _); simpl; rewrite ?to_Uint8_small by lia; repeat f_equal; lia.
Qed.

(** The neighbour scan on a buffer of the configured shape: it reads the
    eight wrapped neighbours, in loop order, and nothing else; it leaves
    the globals alone; and it returns how many of them are non-zero. *)
Lemma getNeighborCount_in_range (grid : ref) (row column : Z) (w : Globals) :
  well_shaped (deref grid w) -> in_range row column ->
  getNeighborCount grid row column w =
    Some (count_alive (deref grid w) (neighbors row column), w,
          (fun p => Load grid (fst p) (snd p)) <$> neighbors row column).
Proof.
  intros Hm [Hr Hc].
  unfold getNeighborCount, for_int_le, for_int.
  simpl.
  change (-1 + 1 + 1) with 1. change (-1 + 1) with 0.
  rewrite !wrap_index_mod by lia.
  etransitivity.
  { let rec run :=
      cbv beta;
      first [ apply count_step;
              [ exact Hm | apply in_range_mod
              | repeat match goal with |- context [truthy ?v] => destruct (truthy v) end; lia ]
            | eapply run_bind; [run | run]
            | reflexivity ] in run. }
  unfold neighbors, count_alive. simpl.
  apply f_equal. apply f_equal2; [apply f_equal2; [lia | reflexivity] | reflexivity].
Qed.

Lemma count_alive_bounds (m : matrix) (cells : list (Z * Z)) :
  0 <= count_alive m cells <= Z.of_nat (length cells).
Proof.
  induction cells as [| p cells IH]; simpl; [lia |].
  destruct (truthy _); lia.
Qed.

Lemma length_neighbors (row column : Z) : length (neighbors row column) = 8%nat.
Proof. reflexivity. Qed.

Lemma neighbors_in_range (row column : Z) :
  Forall (fun p => in_range (fst p) (snd p)) (neighbors row column).
Proof.
  unfold neighbors. apply Forall_fmap, Forall_forall. intros d _. simpl.
  apply in_range_mod.
Qed.

(** ** Filling a buffer cell by cell *)

Lemma filled_start (f : Z -> Z -> Z) (m0 : matrix) :
  well_shaped m0 -> filled f m0 m0 0 0.
Proof.
  intros Hm. split; [exact Hm |]. intros i j [Hi Hj].
  destruct (Z.ltb_spec i 0); [lia |]. destruct (Z.ltb_spec j 0); [lia |].
  rewrite andb_false_r. reflexivity.
Qed.

Lemma filled_store (f : Z -> Z -> Z) (m0 m : matrix) (r k : Z) :
  filled f m0 m r k -> in_range r k ->
  exists m', matrix_set m r k (f r k) = Some m' /\ filled f m0 m' r (k + 1).
Proof.
  intros [Hm Hcells] Hrk.
  destruct (matrix_set_in_range m r k (f r k) Hm Hrk) as (m' & Hset & Hm' & Hcells').
  exists m'. split; [exact Hset |]. split; [exact Hm' |].
  intros i j Hij. rewrite (Hcells' i j Hij), (Hcells i j Hij).
  destruct (Z.eqb_spec i r) as [-> | Hne]; simpl.
  - destruct (Z.eqb_spec j k) as [-> | Hnk].
    + destruct (Z.ltb_spec k (k + 1)); [| lia]. rewrite orb_true_r. reflexivity.
    + destruct (Z.ltb_spec j k), (Z.ltb_spec j (k + 1)); try lia; reflexivity.
  - reflexivity.
Qed.

Lemma filled_next_row (f : Z -> Z -> Z) (m0 m : matrix) (r : Z) :
  filled f m0 m r Columns -> filled f m0 m (r + 1) 0.
Proof.
  intros [Hm Hcells]. split; [exact Hm |].
  intros i j Hij. rewrite (Hcells i j Hij). destruct Hij as [Hi Hj].
  destruct (Z.ltb_spec i r), (Z.ltb_spec i (r + 1)), (Z.eqb_spec i r),
    (Z.eqb_spec i (r + 1)), (Z.ltb_spec j Columns), (Z.ltb_spec j 0);
    try lia; reflexivity.
Qed.

Lemma filled_done (f : Z -> Z -> Z) (m0 m : matrix) :
  filled f m0 m Rows 0 -> m = tabulate f.
Proof.
  intros [Hm Hcells].
  apply matrix_ext; [exact Hm | apply tabulate_well_shaped |].
  intros i j Hij. rewrite (Hcells i j Hij), cell_tabulate by exact Hij.
  destruct Hij as [Hi Hj]. destruct (Z.ltb_spec i Rows); [reflexivity | lia].
Qed.

(** ** One generation *)

Lemma rule_binary (v n : Z) : rule v n = DEAD \/ rule v n = ALIVE.
Proof.
  unfold rule. destruct (truthy v), ((n <? 2) || (n >? 3)), (n =? 3); auto.
Qed.

(** The four assignments of lines 113-132 store the value of [rule]. *)
Lemma rule_branches (newGrid : ref) (r c v n : Z) :
  (if truthy v then
     if (n <? 2) || (n >? 3) then store newGrid r c 0 else store newGrid r c 1
   else
     if n =? 3 then store newGrid r c 1 else store newGrid r c 0)
  = store newGrid r c (rule v n).
Proof.
  unfold rule, DEAD, ALIVE.
  destruct (truthy v), ((n <? 2) || (n >? 3)), (n =? 3); reflexivity.
Qed.

Lemma store_filled (f : Z -> Z -> Z) (b : ref) (m0 m : matrix) (r c : Z) (w : Globals) :
  filled f m0 m r c -> in_range r c ->
  exists m', store b r c (f r c) (assign_ref b m w)
             = Some (tt, assign_ref b m' w, [Store b r c (f r c)]) /\
             filled f m0 m' r (c + 1).
Proof.
  intros Hfill Hrc.
  destruct (filled_store f m0 m r c Hfill Hrc) as (m' & Hset & Hfill').
  exists m'. split; [| exact Hfill'].
  unfold store. rewrite deref_assign_same, Hset, assign_assign. reflexivity.
Qed.

(** The loops of [updateGrid], run on two distinct buffers of the
    configured shape: they succeed, leave in [newGrid] the next
    generation of [grid], change nothing else, and only read [grid] and
    write [newGrid]. *)
Lemma step_spec (grid newGrid : ref) (w : Globals) :
  grid <> newGrid ->
  well_shaped (deref grid w) -> well_shaped (deref newGrid w) ->
  exists t,
    step grid newGrid w
      = Some (tt, assign_ref newGrid (next_generation (deref grid w)) w, t) /\
    Forall (step_access grid newGrid) t.
Proof.
  intros Hne Hg Hs. unfold step, next_generation.
  set (f := fun r c => rule (cell (deref grid w) r c)
                            (count_alive (deref grid w) (neighbors r c))).
  set (I := fun (r k : Z) (_ : unit) (w' : Globals) =>
              exists m, w' = assign_ref newGrid m w /\ filled f (deref newGrid w) m r k).
  match goal with
  | |- context [for_int 0 Rows ?body tt w] =>
      destruct (for_int_inv (fun r => I r 0) (step_access grid newGrid)
                  0 Rows body tt w) as ([] & w' & t & Hrun & (m & -> & Hfill) & HT)
  end.
  - lia.
  - exists (deref newGrid w). split; [symmetry; apply assign_deref |].
    apply filled_start, Hs.
  - intros r [] w1 Hr (m1 & -> & Hfill1).
    match goal with
    | |- context [for_int 0 Columns ?body tt _] =>
        destruct (for_int_inv (I r) (step_access grid newGrid)
                    0 Columns body tt (assign_ref newGrid m1 w))
          as ([] & w2 & t2 & Hrun2 & (m2 & -> & Hfill2) & HT2)
    end.
    + lia.
    + exists m1. auto.
    + intros c [] w3 Hc (m3 & -> & Hfill3).
      assert (Hrc : in_range r c) by (split; lia).
      assert (Hg3 : deref grid (assign_ref newGrid m3 w) = deref grid w)
        by (apply deref_assign_other; congruence).
      destruct (store_filled f newGrid _ m3 r c w Hfill3 Hrc) as (m4 & Hstore & Hfill4).
      exists tt, (assign_ref newGrid m4 w). eexists. split; [| split].
      * eapply run_bind.
        { apply getNeighborCount_in_range; [rewrite Hg3; exact Hg | exact Hrc]. }
        eapply run_bind.
        { apply load_in_range; [rewrite Hg3; exact Hg | exact Hrc]. }
        rewrite rule_branches, Hg3. exact Hstore.
      * exists m4. auto.
      * apply Forall_app. split.
        { apply Forall_fmap.
          eapply Forall_impl; [apply neighbors_in_range |].
          intros p Hp. simpl. auto. }
        apply Forall_app. split; apply Forall_singleton.
        { split; [reflexivity | exact Hrc]. }
        split; [reflexivity |]. split; [exact Hrc | apply rule_binary].
    + exists tt, (assign_ref newGrid m2 w), t2.
      split; [exact Hrun2 |]. split; [| exact HT2].
      exists m2. split; [reflexivity |]. apply filled_next_row, Hfill2.
  - exists t. split; [| exact HT].
    rewrite Hrun. rewrite (filled_done _ _ _ Hfill). reflexivity.
Qed.

(** [updateGrid]: the loops, then the copy of [newGrid] into [grid]. *)
Lemma updateGrid_spec (grid newGrid : ref) (w : Globals) :
  grid <> newGrid ->
  well_shaped (deref grid w) -> well_shaped (deref newGrid w) ->
  exists t,
    updateGrid grid newGrid w
      = Some (tt,
              assign_ref grid (next_generation (deref grid w))
                (assign_ref newGrid (next_generation (deref grid w)) w),
              t ++ [CopyAssign grid newGrid]) /\
    Forall (step_access grid newGrid) t.
Proof.
  intros Hne Hg Hs.
  destruct (step_spec grid newGrid w Hne Hg Hs) as (t & Hstep & HT).
  exists t. split; [| exact HT].
  unfold updateGrid. eapply run_bind; [exact Hstep |].
  unfold commit, copy_assign. rewrite deref_assign_same. reflexivity.
Qed.

Lemma next_generation_well_shaped (m : matrix) : well_shaped (next_generation m).
Proof. apply tabulate_well_shaped. Qed.

Lemma tabulate_binary (f : Z -> Z -> Z) :
  (forall r c, f r c = DEAD \/ f r c = ALIVE) -> binary (tabulate f).
Proof.
  intros Hf r c Hrc.
  rewrite matrix_get_in_range by (apply tabulate_well_shaped || exact Hrc).
  rewrite cell_tabulate by exact Hrc.
  destruct (Hf r c) as [-> | ->]; auto.
Qed.

Lemma next_generation_binary (m : matrix) : binary (next_generation m).
Proof. apply tabulate_binary. intros r c. apply rule_binary. Qed.

(** ** Seeding and drawing *)

Lemma rand_assign (b : ref) (m : matrix) (n : nat) (w : Globals) :
  rand (assign_ref b m (set_rand_calls n w))
  = Some (std_rand n, assign_ref b m (set_rand_calls (S n) w), []).
Proof. destruct b; reflexivity. Qed.

Lemma seeded_binary (n0 : nat) (r c : Z) : seeded n0 r c = DEAD \/ seeded n0 r c = ALIVE.
Proof. unfold seeded. destruct (_ <? 10); auto. Qed.

(** [initGrid] on a buffer of the configured shape: it succeeds,
    overwrites every cell with the bit drawn for it, advances the
    generator by one call per cell, and touches no other buffer. *)
Lemma initGrid_spec (grid : ref) (w : Globals) :
  well_shaped (deref grid w) ->
  exists t,
    initGrid grid w
      = Some (tt,
              assign_ref grid (tabulate (seeded (rand_calls w)))
                (set_rand_calls (rand_calls w + Z.to_nat (Rows * Columns)) w),
              t) /\
    Forall (seed_access grid) t.
Proof.
  intros Hg. unfold initGrid.
  set (n0 := rand_calls w). set (f := seeded n0).
  set (I := fun (r k : Z) (_ : unit) (w' : Globals) =>
              exists m,
                w' = assign_ref grid m
                       (set_rand_calls (n0 + Z.to_nat (r * Columns + k)) w) /\
                filled f (deref grid w) m r k).
  match goal with
  | |- context [for_int 0 Rows ?body tt w] =>
      destruct (for_int_inv (fun r => I r 0) (seed_access grid)
                  0 Rows body tt w) as ([] & w' & t & Hrun & (m & -> & Hfill) & HT)
  end.
  - lia.
  - exists (deref grid w). split; [| apply filled_start, Hg].
    replace (n0 + Z.to_nat (0 * Columns + 0))%nat with (rand_calls w) by (subst n0; lia).
    destruct grid, w; reflexivity.
  - intros r [] w1 Hr (m1 & -> & Hfill1).
    match goal with
    | |- context [for_int 0 Columns ?body tt _] =>
        destruct (for_int_inv (I r) (seed_access grid) 0 Columns body tt
                    (assign_ref grid m1
                       (set_rand_calls (n0 + Z.to_nat (r * Columns + 0)) w)))
          as ([] & w2 & t2 & Hrun2 & (m2 & -> & Hfill2) & HT2)
    end.
    + lia.
    + exists m1. auto.
    + intros c [] w3 Hc (m3 & -> & Hfill3).
      assert (Hrc : in_range r c) by (split; lia).
      destruct (store_filled f grid _ m3 r c
                  (set_rand_calls (S (n0 + Z.to_nat (r * Columns + c))) w) Hfill3 Hrc)
        as (m4 & Hstore & Hfill4).
      exists tt. eexists. eexists. split; [| split].
      * eapply run_bind; [apply rand_assign |]. exact Hstore.
      * exists m4. split; [| exact Hfill4]. do 2 f_equal. nia.
      * apply Forall_singleton. split; [reflexivity |].
        split; [exact Hrc | apply seeded_binary].
    + eexists tt, _, t2. split; [exact Hrun2 |]. split; [| exact HT2].
      exists m2. split; [| apply filled_next_row, Hfill2]. do 3 f_equal. lia.
  - exists t. split; [| exact HT].
    rewrite Hrun, (filled_done _ _ _ Hfill). do 5 f_equal. lia.
Qed.

(** [drawGrid] on a buffer of the configured shape: it succeeds, changes
    nothing, and only reads that buffer. *)
Lemma drawGrid_spec (grid : ref) (w : Globals) :
  well_shaped (deref grid w) ->
  exists rects t,
    drawGrid grid w = Some (rects, w, t) /\ Forall (draw_access grid) t.
Proof.
  intros Hg. unfold drawGrid.
  match goal with
  | |- context [for_int 0 Rows ?body ?a w] =>
      destruct (for_int_inv (fun _ _ w' => w' = w) (draw_access grid)
                  0 Rows body a w) as (rects & w' & t & Hrun & -> & HT)
  end.
  - lia.
  - reflexivity.
  - intros r out w1 Hr ->.
    match goal with
    | |- context [for_int 0 Columns ?body ?a w] =>
        destruct (for_int_inv (fun _ _ w' => w' = w) (draw_access grid)
                    0 Columns body a w) as (rects & w' & t & Hrun & -> & HT)
    end.
    + lia.
    + reflexivity.
    + intros c out' w2 Hc ->.
      assert (Hrc : in_range r c) by (split; lia).
      eexists _, w, _. split; [| split; [reflexivity |]].
      * eapply run_bind; [apply load_in_range; [exact Hg | exact Hrc] |].
        apply if_ret.
      * apply Forall_app. split; [| constructor].
        apply Forall_singleton. split; [reflexivity | exact Hrc].
    + exists rects, w, t. auto.
  - exists rects, t. auto.
Qed.

(** ** The specification's claims about one generation *)

Lemma cell_next_generation (m : matrix) (r c : Z) :
  in_range r c ->
  cell (next_generation m) r c = rule (cell m r c) (count_alive m (neighbors r c)).
Proof.
  intros Hrc. unfold next_generation. rewrite cell_tabulate by exact Hrc. reflexivity.
Qed.

(** C1: for every cell (r,c) of the current grid, one step leaves in
    the staging buffer the value given by the standard rule applied to
    the cell and to its neighbour count: the number [n] of non-zero cells
    among its eight neighbours on the torus, which is also the number
    [getNeighborCount] returns for it. An ALIVE cell becomes DEAD exactly
    when the count is below 2 or above 3 and stays ALIVE exactly when it
    is 2 or 3; a DEAD cell becomes ALIVE exactly when the count is 3 and
    stays DEAD otherwise. *)
Theorem step_applies_rule (w : Globals) (r c : Z) :
  well_shaped (Grid w) -> well_shaped (NewGrid w) -> in_range r c ->
  exists w' t n tn,
    step RefGrid RefNewGrid w = Some (tt, w', t) /\
    n = count_alive (Grid w) (neighbors r c) /\
    getNeighborCount RefGrid r c w = Some (n, w, tn) /\
    (cell (Grid w) r c = ALIVE ->
       (cell (NewGrid w') r c = DEAD <-> n < 2 \/ n > 3) /\
       (cell (NewGrid w') r c = ALIVE <-> n = 2 \/ n = 3)) /\
    (cell (Grid w) r c = DEAD ->
       (cell (NewGrid w') r c = ALIVE <-> n = 3) /\
       (cell (NewGrid w') r c = DEAD <-> n <> 3)).
Proof.
  intros Hg Hs Hrc.
  destruct (step_spec RefGrid RefNewGrid w ltac:(discriminate) Hg Hs) as (t & Hstep & _).
  eexists _, t, (count_alive (Grid w) (neighbors r c)), _. split; [exact Hstep |].
  split; [reflexivity |].
  split; [apply (getNeighborCount_in_range RefGrid); [exact Hg | exact Hrc] |].
  change (NewGrid (assign_ref RefNewGrid (next_generation (deref RefGrid w)) w))
    with (next_generation (Grid w)).
  rewrite cell_next_generation by exact Hrc.
  generalize (count_alive (Grid w) (neighbors r c)) as n. intros n.
  unfold rule, truthy, ALIVE, DEAD.
  split; intros ->; simpl;
    destruct (Z.ltb_spec n 2), (Z.gtb_spec n 3), (Z.eqb_spec n 3); simpl; lia.
Qed.

(** C2: for all dimensions Rows, Columns >= 1 (within the [int] range of
    the indices) and every in-range cell, [getNeighborCount] reads
    exactly the cells at the 8 offsets of {-1,0,1} x {-1,0,1} other than
    (0,0), each coordinate wrapped modulo Rows or Columns, so that every
    access is in range (the scan therefore succeeds, also on 1 x 1 and
    1 x N grids), and it returns a count between 0 and 8. *)
Theorem getNeighborCount_safe (grid : ref) (w : Globals) (row column : Z) :
  well_shaped (deref grid w) -> in_range row column ->
  exists n t,
    getNeighborCount grid row column w = Some (n, w, t) /\
    t = (fun d => Load grid ((row + fst d) mod Rows) ((column + snd d) mod Columns))
          <$> [(-1, -1); (-1, 0); (-1, 1); (0, -1); (0, 1); (1, -1); (1, 0); (1, 1)] /\
    Forall (fun e => exists r c, e = Load grid r c /\ in_range r c) t /\
    n = count_alive (deref grid w) (neighbors row column) /\
    0 <= n <= 8.
Proof.
  intros Hg Hrc.
  eexists _, _. split; [apply getNeighborCount_in_range; [exact Hg | exact Hrc] |].
  split; [reflexivity |]. split; [| split; [reflexivity |]].
  - apply Forall_fmap.
    eapply Forall_impl; [apply (neighbors_in_range row column) |].
    intros p Hp. exists (fst p), (snd p). auto.
  - pose proof (count_alive_bounds (deref grid w) (neighbors row column)) as Hb.
    rewrite length_neighbors in Hb. lia.
Qed.

(** C3: step is deterministic: two runs on identical current
    generations, whatever the staging buffers held before, both succeed
    and produce identical next generations, in the staging buffer after
    the loops and in the current buffer after the whole of
    [updateGrid]. *)
Theorem step_deterministic (w1 w2 : Globals) :
  Grid w1 = Grid w2 ->
  well_shaped (Grid w1) -> well_shaped (NewGrid w1) -> well_shaped (NewGrid w2) ->
  exists w1' w2' t1 t2 u1 u2 s1 s2,
    step RefGrid RefNewGrid w1 = Some (tt, w1', t1) /\
    step RefGrid RefNewGrid w2 = Some (tt, w2', t2) /\
    NewGrid w1' = NewGrid w2' /\
    updateGrid RefGrid RefNewGrid w1 = Some (tt, u1, s1) /\
    updateGrid RefGrid RefNewGrid w2 = Some (tt, u2, s2) /\
    Grid u1 = Grid u2.
Proof.
  intros Heq Hg1 Hs1 Hs2.
  assert (Hg2 : well_shaped (Grid w2)) by (rewrite <- Heq; exact Hg1).
  destruct (step_spec RefGrid RefNewGrid w1 ltac:(discriminate) Hg1 Hs1) as (t1 & Hstep1 & _).
  destruct (step_spec RefGrid RefNewGrid w2 ltac:(discriminate) Hg2 Hs2) as (t2 & Hstep2 & _).
  destruct (updateGrid_spec RefGrid RefNewGrid w1 ltac:(discriminate) Hg1 Hs1) as (s1 & Hup1 & _).
  destruct (updateGrid_spec RefGrid RefNewGrid w2 ltac:(discriminate) Hg2 Hs2) as (s2 & Hup2 & _).
  eexists _, _, _, _, _, _, _, _.
  split; [exact Hstep1 |]. split; [exact Hstep2 |].
  split; [simpl; rewrite Heq; reflexivity |].
  split; [exact Hup1 |]. split; [exact Hup2 |].
  simpl. rewrite Heq. reflexivity.
Qed.

(** C4: during step the next generation is a function of the current
    generation only: the loops never load from the staging buffer and
    never store to the current buffer (every load is from [Grid], every
    store is to [NewGrid], no buffer is copied), the current buffer is
    unchanged, and the staging buffer ends up as the next generation of
    the current one, whatever it held before. *)
Theorem step_reads_current_writes_staging (w : Globals) :
  well_shaped (Grid w) -> well_shaped (NewGrid w) ->
  exists w' t,
    step RefGrid RefNewGrid w = Some (tt, w', t) /\
    Forall (fun e => match e with
                     | Load b _ _ => b = RefGrid
                     | Store b _ _ _ => b = RefNewGrid
                     | CopyAssign _ _ => False
                     end) t /\
    Grid w' = Grid w /\
    NewGrid w' = next_generation (Grid w).
Proof.
  intros Hg Hs.
  destruct (step_spec RefGrid RefNewGrid w ltac:(discriminate) Hg Hs) as (t & Hstep & HT).
  eexists _, t. split; [exact Hstep |]. split; [| split; reflexivity].
  eapply Forall_impl; [exact HT |].
  intros [b r c | b r c v | dst src]; simpl; tauto.
Qed.

(** C5: commit makes current equal to staging: after step then commit
    (which together are [updateGrid]), loading any cell of the current
    buffer yields exactly the value step left in the staging buffer for
    that cell; and the current buffer after commit is determined by the
    staging buffer alone: whatever the current buffer held before the
    commit leaves no trace in it. *)
Theorem commit_makes_current_staging (w : Globals) :
  well_shaped (Grid w) -> well_shaped (NewGrid w) ->
  exists w1 t1 w2 t2,
    step RefGrid RefNewGrid w = Some (tt, w1, t1) /\
    commit RefGrid RefNewGrid w1 = Some (tt, w2, t2) /\
    updateGrid RefGrid RefNewGrid w = Some (tt, w2, t1 ++ t2) /\
    Grid w2 = NewGrid w1 /\
    (forall r c, in_range r c ->
       exists v, load RefNewGrid r c w1 = Some (v, w1, [Load RefNewGrid r c]) /\
                 load RefGrid r c w2 = Some (v, w2, [Load RefGrid r c])) /\
    (forall old, exists u tu,
       commit RefGrid RefNewGrid (assign_ref RefGrid old w1) = Some (tt, u, tu) /\
       Grid u = Grid w2).
Proof.
  intros Hg Hs.
  destruct (step_spec RefGrid RefNewGrid w ltac:(discriminate) Hg Hs) as (t & Hstep & _).
  eexists _, t, _, _. split; [exact Hstep |].
  split; [reflexivity |].
  split; [eapply run_bind; [exact Hstep | reflexivity] |].
  split; [reflexivity |]. split.
  - intros r c Hrc. exists (cell (next_generation (Grid w)) r c). split.
    + apply load_in_range; [apply next_generation_well_shaped | exact Hrc].
    + apply load_in_range; [apply next_generation_well_shaped | exact Hrc].
  - intros old. eexists _, _. split; reflexivity.
Qed.

Lemma count_alive_dead (m : matrix) (cells : list (Z * Z)) :
  Forall (fun p => in_range (fst p) (snd p)) cells ->
  (forall r c, in_range r c -> cell m r c = DEAD) ->
  count_alive m cells = 0.
Proof.
  intros Hcells Hdead. induction Hcells as [| p cells Hp _ IH]; simpl; [reflexivity |].
  rewrite (Hdead _ _ Hp), IH. reflexivity.
Qed.

(** C6: stability of the empty grid: if every cell of the current
    generation is DEAD, then one step leaves every cell of the next
    generation DEAD, in the staging buffer after the loops and in the
    current buffer after [updateGrid]. *)
Theorem empty_grid_stable (w : Globals) :
  well_shaped (Grid w) -> well_shaped (NewGrid w) ->
  (forall r c, in_range r c -> matrix_get (Grid w) r c = Some DEAD) ->
  exists w1 t1 w2 t2,
    step RefGrid RefNewGrid w = Some (tt, w1, t1) /\
    (forall r c, in_range r c -> matrix_get (NewGrid w1) r c = Some DEAD) /\
    updateGrid RefGrid RefNewGrid w = Some (tt, w2, t2) /\
    (forall r c, in_range r c -> matrix_get (Grid w2) r c = Some DEAD).
Proof.
  intros Hg Hs Hdead.
  destruct (step_spec RefGrid RefNewGrid w ltac:(discriminate) Hg Hs) as (t1 & Hstep & _).
  destruct (updateGrid_spec RefGrid RefNewGrid w ltac:(discriminate) Hg Hs) as (t2 & Hup & _).
  assert (Hcell : forall r c, in_range r c -> cell (Grid w) r c = DEAD).
  { intros r c Hrc. unfold cell. rewrite (Hdead r c Hrc). reflexivity. }
  assert (Hnext : forall r c, in_range r c ->
            matrix_get (next_generation (Grid w)) r c = Some DEAD).
  { intros r c Hrc.
    rewrite matrix_get_in_range by (apply next_generation_well_shaped || exact Hrc).
    rewrite cell_next_generation by exact Hrc.
    rewrite (Hcell r c Hrc), (count_alive_dead _ _ (neighbors_in_range r c) Hcell).
    reflexivity. }
  eexists _, t1, _, _. split; [exact Hstep |]. split; [exact Hnext |].
  split; [exact Hup |]. exact Hnext.
Qed.

(** ** The invariant of the two buffers *)

Lemma zero_matrix_binary : binary (zero_matrix Rows Columns).
Proof.
  intros r c Hrc. left.
  rewrite matrix_get_in_range by (apply zero_matrix_well_shaped || exact Hrc).
  rewrite cell_zero_matrix. reflexivity.
Qed.

(** C8: every cell of the grid holds a binary value (DEAD = 0 or
    ALIVE = 1) at every coordinate 0 <= row < Rows, 0 <= column <
    Columns: this holds of both buffers as their initialisers leave
    them, and every operation (seed, step, commit, and step followed by
    commit) succeeds from a state where it holds and re-establishes
    it. *)
Theorem binary_invariant :
  grid_invariant initial_globals /\
  forall (o : operation) (w : Globals),
    grid_invariant w ->
    exists w' t, run_operation o w = Some (tt, w', t) /\ grid_invariant w'.
Proof.
  split.
  - split; (split; [apply zero_matrix_well_shaped | apply zero_matrix_binary]).
  - intros o w [[Hg Hgb] [Hs Hsb]]. destruct o; simpl.
    + destruct (initGrid_spec RefGrid w Hg) as (t & Hrun & _).
      eexists _, t. split; [exact Hrun |]. simpl.
      split; [split; [apply tabulate_well_shaped |] | split; assumption].
      apply tabulate_binary. intros r c. apply seeded_binary.
    + destruct (step_spec RefGrid RefNewGrid w ltac:(discriminate) Hg Hs) as (t & Hrun & _).
      eexists _, t. split; [exact Hrun |]. simpl.
      split; [split; assumption |].
      split; [apply next_generation_well_shaped | apply next_generation_binary].
    + eexists _, _. split; [reflexivity |]. simpl. split; split; assumption.
    + destruct (updateGrid_spec RefGrid RefNewGrid w ltac:(discriminate) Hg Hs)
        as (t & Hrun & _).
      eexists _, _. split; [exact Hrun |]. simpl.
      split; (split; [apply next_generation_well_shaped | apply next_generation_binary]).
Qed.

(** ** The callbacks *)

(** C9: the toggle-run event (space bar) flips the run/pause flag and
    nothing else: the globals, hence every cell of both buffers, are
    unchanged and no cell is accessed; the reseed-request event (R key)
    runs [initGrid] on the current buffer whatever the run/pause flag
    is, leaving the application record and the staging buffer as they
    were. *)
Theorem events_toggle_and_reseed (app : Application) (w : Globals) :
  well_shaped (Grid w) ->
  SDL_AppEvent app (SDL_EVENT_KEY_DOWN SDLK_SPACE) w
    = Some ((SDL_APP_CONTINUE,
             mkApplication (window app) (renderer app) (status app)
                           (negb (runSimulation app))), w, []) /\
  exists w' t,
    initGrid RefGrid w = Some (tt, w', t) /\
    SDL_AppEvent app (SDL_EVENT_KEY_DOWN SDLK_R) w
      = Some ((SDL_APP_CONTINUE, app), w', t) /\
    Grid w' = tabulate (seeded (rand_calls w)) /\
    NewGrid w' = NewGrid w.
Proof.
  intros Hg. split; [reflexivity |].
  destruct (initGrid_spec RefGrid w Hg) as (t & Hrun & _).
  eexists _, t. split; [exact Hrun |]. split; [| split; reflexivity].
  simpl. erewrite run_bind; [| exact Hrun | reflexivity].
  rewrite app_nil_r. reflexivity.
Qed.

(** C10: after every step-and-commit the staging buffer is left equal to
    the current buffer, cell for cell: [updateGrid] on the two global
    buffers ends with [NewGrid] equal to [Grid], both holding the new
    generation, and so does every [SDL_AppIterate] that runs with the
    simulation enabled. *)
Theorem staging_equals_current_after_update (app : Application) (w : Globals) :
  well_shaped (Grid w) -> well_shaped (NewGrid w) ->
  (exists w' t,
     updateGrid RefGrid RefNewGrid w = Some (tt, w', t) /\
     NewGrid w' = Grid w' /\
     Grid w' = next_generation (Grid w) /\
     forall r c, matrix_get (NewGrid w') r c = matrix_get (Grid w') r c) /\
  (runSimulation app = true ->
   exists res w' t,
     SDL_AppIterate app w = Some (res, w', t) /\
     NewGrid w' = Grid w' /\
     Grid w' = next_generation (Grid w)).
Proof.
  intros Hg Hs.
  destruct (updateGrid_spec RefGrid RefNewGrid w ltac:(discriminate) Hg Hs) as (t & Hup & _).
  split.
  - eexists _, _. split; [exact Hup |]. simpl. auto.
  - intros Hrun.
    destruct (drawGrid_spec RefGrid w Hg) as (rects & td & Hdraw & _).
    eexists _, _, _. split.
    + unfold SDL_AppIterate. eapply run_bind; [exact Hdraw |].
      rewrite Hrun. eapply run_bind; [exact Hup | reflexivity].
    + simpl. auto.
Qed.

(** ** The blinker *)

(** On a ring of at least three positions, at most one of [q - 1], [q]
    and [q + 1] is the centre, and one of them is exactly when [q] is
    near the centre. *)
Lemma center_among_neighbors (n p q : Z) :
  3 <= n -> 0 <= p < n -> 0 <= q < n ->
  let e1 := ((q + -1) mod n =? p) in
  let e2 := (q =? p) in
  let e3 := ((q + 1) mod n =? p) in
  (e1 = false /\ e2 = false /\ e3 = false /\ near_center n p q = false) \/
  (e1 = true /\ e2 = false /\ e3 = false /\ near_center n p q = true) \/
  (e1 = false /\ e2 = true /\ e3 = false /\ near_center n p q = true) \/
  (e1 = false /\ e2 = false /\ e3 = true /\ near_center n p q = true).
Proof.
  intros Hn Hp Hq. unfold near_center.
  rewrite !mod_neighbor by lia.
  repeat match goal with
         | |- context [?a <? ?b] => destruct (Z.ltb_spec a b); try lia
         | |- context [?a <=? ?b] => destruct (Z.leb_spec a b); try lia
         end;
  repeat match goal with
         | |- context [?a =? ?b] => destruct (Z.eqb_spec a b); try lia
         end; simpl; tauto.
Qed.

(** On a ring of at least four positions: at the centre, [q - 1], [q]
    and [q + 1] are all near the centre; at another position near the
    centre exactly one of [q - 1] and [q + 1] is. *)
Lemma near_center_among_neighbors (n p q : Z) :
  4 <= n -> 0 <= p < n -> 0 <= q < n ->
  let t1 := near_center n p ((q + -1) mod n) in
  let t2 := near_center n p q in
  let t3 := near_center n p ((q + 1) mod n) in
  ((q =? p) = true /\ t1 = true /\ t2 = true /\ t3 = true) \/
  ((q =? p) = false /\ t2 = true /\ t1 = negb t3) \/
  ((q =? p) = false /\ t2 = false).
Proof.
  intros Hn Hp Hq. unfold near_center.
  rewrite !mod_neighbor by lia.
  repeat match goal with
         | |- context [?a <? ?b] => destruct (Z.ltb_spec a b); try lia
         | |- context [?a <=? ?b] => destruct (Z.leb_spec a b); try lia
         end;
  repeat match goal with
         | |- context [?a =? ?b] => destruct (Z.eqb_spec a b); try lia
         end; simpl; tauto.
Qed.

Lemma bit_truthy (b : bool) : truthy (if b then 1 else 0) = b.
Proof. destruct b; reflexivity. Qed.

Lemma elem_of_blinker_horizontal (r c x y : Z) :
  bool_decide ((x, y) ∈ blinker_horizontal r c) = (x =? r) && near_center Columns c y.
Proof.
  unfold blinker_horizontal, near_center.
  change (c - 1) with (c + -1).
  destruct (Z.eqb_spec x r), (Z.eqb_spec y ((c + -1) mod Columns)), (Z.eqb_spec y c),
    (Z.eqb_spec y ((c + 1) mod Columns)); simpl;
    (apply bool_decide_eq_true || apply bool_decide_eq_false);
    rewrite ?elem_of_cons, ?elem_of_nil; subst; try tauto;
    intros Hin; repeat destruct Hin as [Hin | Hin]; congruence.
Qed.

Lemma elem_of_blinker_vertical (r c x y : Z) :
  bool_decide ((x, y) ∈ blinker_vertical r c) = near_center Rows r x && (y =? c).
Proof.
  unfold blinker_vertical, near_center.
  change (r - 1) with (r + -1).
  destruct (Z.eqb_spec y c), (Z.eqb_spec x ((r + -1) mod Rows)), (Z.eqb_spec x r),
    (Z.eqb_spec x ((r + 1) mod Rows)); simpl;
    (apply bool_decide_eq_true || apply bool_decide_eq_false);
    rewrite ?elem_of_cons, ?elem_of_nil; subst; try tauto;
    intros Hin; repeat destruct Hin as [Hin | Hin]; congruence.
Qed.

Lemma in_range_mod_l (r c : Z) : 0 <= c < Columns -> in_range (r mod Rows) c.
Proof. intros Hc. split; [apply Z.mod_pos_bound; lia | exact Hc]. Qed.

Lemma in_range_mod_r (r c : Z) : 0 <= r < Rows -> in_range r (c mod Columns).
Proof. intros Hr. split; [exact Hr | apply Z.mod_pos_bound; lia]. Qed.

(** One generation turns the horizontal phase into the vertical one. *)
Lemma horizontal_to_vertical (m : matrix) (r c : Z) :
  4 <= Rows -> 4 <= Columns -> in_range r c ->
  alive_exactly m (blinker_horizontal r c) ->
  alive_exactly (next_generation m) (blinker_vertical r c).
Proof.
  intros HR HC [Hr Hc] [Hm Hcells]. split; [apply next_generation_well_shaped |].
  intros i j [Hi Hj].
  rewrite cell_next_generation by (split; assumption).
  rewrite elem_of_blinker_vertical.
  assert (Hcell : forall x y, in_range x y ->
            cell m x y = if (x =? r) && near_center Columns c y then 1 else 0).
  { intros x y Hxy. rewrite (Hcells x y Hxy), elem_of_blinker_horizontal. reflexivity. }
  unfold neighbors, count_alive. simpl.
  rewrite !Z.add_0_r, !(Z.mod_small i Rows), !(Z.mod_small j Columns) by lia.
  rewrite !Hcell
    by first [ apply in_range_mod | apply in_range_mod_l; lia
             | apply in_range_mod_r; lia | split; lia ].
  rewrite !bit_truthy.
  pose proof (center_among_neighbors Rows r i ltac:(lia) Hr Hi) as HE.
  pose proof (near_center_among_neighbors Columns c j HC Hc Hj) as HT.
  cbv zeta in HE, HT.
  destruct HE as [(-> & -> & -> & ->) | [(-> & -> & -> & ->) |
                 [(-> & -> & -> & ->) | (-> & -> & -> & ->)]]];
    destruct HT as [(-> & -> & -> & ->) | [(-> & -> & ->) | (-> & ->)]];
    repeat match goal with
           | |- context [near_center ?n ?p ?q] => destruct (near_center n p q)
           end; reflexivity.
Qed.

(** One generation turns the vertical phase into the horizontal one. *)
Lemma vertical_to_horizontal (m : matrix) (r c : Z) :
  4 <= Rows -> 4 <= Columns -> in_range r c ->
  alive_exactly m (blinker_vertical r c) ->
  alive_exactly (next_generation m) (blinker_horizontal r c).
Proof.
  intros HR HC [Hr Hc] [Hm Hcells]. split; [apply next_generation_well_shaped |].
  intros i j [Hi Hj].
  rewrite cell_next_generation by (split; assumption).
  rewrite elem_of_blinker_horizontal.
  assert (Hcell : forall x y, in_range x y ->
            cell m x y = if near_center Rows r x && (y =? c) then 1 else 0).
  { intros x y Hxy. rewrite (Hcells x y Hxy), elem_of_blinker_vertical. reflexivity. }
  unfold neighbors, count_alive. simpl.
  rewrite !Z.add_0_r, !(Z.mod_small i Rows), !(Z.mod_small j Columns) by lia.
  rewrite !Hcell
    by first [ apply in_range_mod | apply in_range_mod_l; lia
             | apply in_range_mod_r; lia | split; lia ].
  rewrite !bit_truthy.
  pose proof (center_among_neighbors Columns c j ltac:(lia) Hc Hj) as HE.
  pose proof (near_center_among_neighbors Rows r i HR Hr Hi) as HT.
  cbv zeta in HE, HT.
  destruct HE as [(-> & -> & -> & ->) | [(-> & -> & -> & ->) |
                 [(-> & -> & -> & ->) | (-> & -> & -> & ->)]]];
    destruct HT as [(-> & -> & -> & ->) | [(-> & -> & ->) | (-> & ->)]];
    repeat match goal with
           | |- context [near_center ?n ?p ?q] => destruct (near_center n p q)
           end; reflexivity.
Qed.

Lemma alive_exactly_unique (m1 m2 : matrix) (cells : list (Z * Z)) :
  alive_exactly m1 cells -> alive_exactly m2 cells -> m1 = m2.
Proof.
  intros [Hm1 H1] [Hm2 H2]. apply matrix_ext; [exact Hm1 | exact Hm2 |].
  intros r c Hrc. rewrite (H1 r c Hrc), (H2 r c Hrc). reflexivity.
Qed.

(** Away from the edges the two phases are the literal lines. *)
Lemma blinker_interior (r c : Z) :
  1 <= r < Rows - 1 -> 1 <= c < Columns - 1 ->
  blinker_horizontal r c = [(r, c - 1); (r, c); (r, c + 1)] /\
  blinker_vertical r c = [(r - 1, c); (r, c); (r + 1, c)].
Proof.
  intros Hr Hc. unfold blinker_horizontal, blinker_vertical.
  rewrite !Z.mod_small by lia. split; reflexivity.
Qed.

(** C7: blinker oscillation: on a grid large enough to isolate the
    pattern (at least 4 rows and 4 columns suffice), a current
    generation whose only ALIVE cells are the horizontal line
    {(r,c-1),(r,c),(r,c+1)} steps to a generation whose only ALIVE cells
    are the vertical line {(r-1,c),(r,c),(r+1,c)}, and a second step
    returns to the original horizontal line. The centre may be any cell;
    coordinates that fall off an edge are taken on the torus, and for a
    centre away from the edges they are the literal ones
    ([blinker_interior]). *)
Theorem blinker_oscillates (w : Globals) (r c : Z) :
  4 <= Rows -> 4 <= Columns -> in_range r c ->
  well_shaped (NewGrid w) ->
  alive_exactly (Grid w) (blinker_horizontal r c) ->
  exists w1 t1 w2 t2,
    updateGrid RefGrid RefNewGrid w = Some (tt, w1, t1) /\
    alive_exactly (Grid w1) (blinker_vertical r c) /\
    updateGrid RefGrid RefNewGrid w1 = Some (tt, w2, t2) /\
    alive_exactly (Grid w2) (blinker_horizontal r c) /\
    Grid w2 = Grid w.
Proof.
  intros HR HC Hrc Hs Hh.
  destruct (updateGrid_spec RefGrid RefNewGrid w ltac:(discriminate) (proj1 Hh) Hs)
    as (t1 & Hup1 & _).
  pose proof (horizontal_to_vertical _ r c HR HC Hrc Hh) as Hv.
  set (w1 := assign_ref RefGrid (next_generation (deref RefGrid w))
               (assign_ref RefNewGrid (next_generation (deref RefGrid w)) w)) in *.
  destruct (updateGrid_spec RefGrid RefNewGrid w1 ltac:(discriminate)
              (next_generation_well_shaped _) (next_generation_well_shaped _))
    as (t2 & Hup2 & _).
  pose proof (vertical_to_horizontal _ r c HR HC Hrc Hv) as Hh2.
  eexists w1, _, _, _. split; [exact Hup1 |]. split; [exact Hv |].
  split; [exact Hup2 |]. split; [exact Hh2 |].
  exact (alive_exactly_unique _ _ _ Hh2 Hh).
Qed.

(** ** The callbacks preserve the invariant *)

Lemma SDL_AppInit_invariant (init_ok create_ok : bool) (win ren : Z) (w : Globals) :
  grid_invariant w ->
  exists res w' t,
    SDL_AppInit init_ok create_ok win ren w = Some (res, w', t) /\ grid_invariant w'.
Proof.
  intros Hinv. unfold SDL_AppInit.
  destruct init_ok; simpl; [| eexists _, _, _; split; [reflexivity | exact Hinv]].
  destruct create_ok; simpl; [| eexists _, _, _; split; [reflexivity | exact Hinv]].
  destruct Hinv as [[Hg Hgb] Hnew].
  destruct (initGrid_spec RefGrid w Hg) as (t & Hrun & _).
  eexists _, _, _. split; [eapply run_bind; [exact Hrun | reflexivity] |].
  split; [| exact Hnew].
  split; [apply tabulate_well_shaped |].
  apply tabulate_binary. intros r c. apply seeded_binary.
Qed.

Lemma SDL_AppEvent_invariant (app : Application) (event : SDL_Event) (w : Globals) :
  grid_invariant w ->
  exists res w' t, SDL_AppEvent app event w = Some (res, w', t) /\ grid_invariant w'.
Proof.
  intros Hinv.
  destruct event as [| [| |] |]; simpl;
    try (eexists _, _, _; split; [reflexivity | exact Hinv]).
  destruct Hinv as [[Hg Hgb] Hnew].
  destruct (initGrid_spec RefGrid w Hg) as (t & Hrun & _).
  eexists _, _, _. split; [eapply run_bind; [exact Hrun | reflexivity] |].
  split; [| exact Hnew].
  split; [apply tabulate_well_shaped |].
  apply tabulate_binary. intros r c. apply seeded_binary.
Qed.

Lemma SDL_AppIterate_invariant (app : Application) (w : Globals) :
  grid_invariant w ->
  exists res w' t, SDL_AppIterate app w = Some (res, w', t) /\ grid_invariant w'.
Proof.
  intros Hinv. pose proof Hinv as [[Hg Hgb] [Hs Hsb]].
  destruct (drawGrid_spec RefGrid w Hg) as (rects & td & Hdraw & _).
  unfold SDL_AppIterate. destruct (runSimulation app).
  - destruct (updateGrid_spec RefGrid RefNewGrid w ltac:(discriminate) Hg Hs)
      as (t & Hup & _).
    eexists _, _, _. split.
    + eapply run_bind; [exact Hdraw |]. eapply run_bind; [exact Hup | reflexivity].
    + split; (split; [apply next_generation_well_shaped | apply next_generation_binary]).
  - eexists _, _, _. split.
    + eapply run_bind; [exact Hdraw |]. eapply run_bind; reflexivity.
    + exact Hinv.
Qed.

(** Whatever events arrive and however many frames are drawn, every
    callback succeeds (no access ever leaves a buffer) and the invariant
    holds afterwards. *)
Lemma run_callbacks_invariant (cbs : list callback) (app : Application) (w : Globals) :
  grid_invariant w ->
  exists app' w' t, run_callbacks app cbs w = Some (app', w', t) /\ grid_invariant w'.
Proof.
  revert app w. induction cbs as [| cb cbs IH]; intros app w Hinv.
  - exists app, w, []. split; [reflexivity | exact Hinv].
  - assert (Hcb : exists app1 w1 t1,
              run_callback app cb w = Some (app1, w1, t1) /\ grid_invariant w1).
    { destruct cb as [event |]; simpl.
      - destruct (SDL_AppEvent_invariant app event w Hinv) as (res & w1 & t1 & Hrun & Hinv1).
        eexists _, w1, _. split; [eapply run_bind; [exact Hrun | reflexivity] | exact Hinv1].
      - destruct (SDL_AppIterate_invariant app w Hinv) as (res & w1 & t1 & Hrun & Hinv1).
        eexists _, w1, _. split; [eapply run_bind; [exact Hrun | reflexivity] | exact Hinv1]. }
    destruct Hcb as (app1 & w1 & t1 & Hrun1 & Hinv1).
    destruct (IH app1 w1 Hinv1) as (app2 & w2 & t2 & Hrun2 & Hinv2).
    exists app2, w2, (t1 ++ t2). split; [| exact Hinv2].
    simpl. eapply run_bind; [exact Hrun1 | exact Hrun2].
Qed.

(** * The rest of the program *)

(** ** What [drawGrid] draws *)

Lemma In_range (lo i : Z) (n : nat) : In i (range lo n) <-> lo <= i < lo + Z.of_nat n.
Proof.
  revert lo. induction n as [| n IH]; intros lo; simpl; [lia |].
  rewrite IH. lia.
Qed.

Lemma row_rects_S (m : matrix) (r : Z) (k : nat) :
  row_rects m r (S k) =
    row_rects m r k ++
    (if truthy (cell m r (Z.of_nat k)) then [cell_rect r (Z.of_nat k)] else []).
Proof.
  unfold row_rects. rewrite range_snoc, List.filter_app, fmap_app. simpl.
  replace (0 + Z.of_nat k) with (Z.of_nat k) by lia.
  destruct (truthy _); reflexivity.
Qed.

Lemma rows_rects_S (m : matrix) (n k : nat) :
  rows_rects m (S n) k = rows_rects m n k ++ row_rects m (Z.of_nat n) k.
Proof.
  unfold rows_rects. rewrite range_snoc, fmap_app, concat_app. simpl.
  rewrite app_nil_r. replace (0 + Z.of_nat n) with (Z.of_nat n) by lia. reflexivity.
Qed.

(** [drawGrid] returns the rectangles of the non-zero cells in row-major
    order, changes nothing and only reads the buffer it is given. *)
Lemma drawGrid_returns (grid : ref) (w : Globals) :
  well_shaped (deref grid w) ->
  exists t,
    drawGrid grid w = Some (live_rects (deref grid w), w, t) /\
    Forall (draw_access grid) t.
Proof.
  intros Hg. unfold drawGrid, live_rects.
  set (m := deref grid w).
  match goal with
  | |- context [for_int 0 Rows ?body ?a w] =>
      destruct (for_int_inv
                  (fun r out w' => w' = w /\
                     out = rows_rects m (Z.to_nat r) (Z.to_nat Columns))
                  (draw_access grid) 0 Rows body a w)
        as (rects & w' & t & Hrun & (-> & ->) & HT)
  end.
  - lia.
  - split; reflexivity.
  - intros r out w1 Hr (-> & ->).
    match goal with
    | |- context [for_int 0 Columns ?body ?a w] =>
        destruct (for_int_inv
                    (fun c out w' => w' = w /\
                       out = rows_rects m (Z.to_nat r) (Z.to_nat Columns)
                             ++ row_rects m r (Z.to_nat c))
                    (draw_access grid) 0 Columns body a w)
          as (rects & w' & t & Hrun & (-> & ->) & HT)
    end.
    + lia.
    + split; [reflexivity |]. unfold row_rects. simpl. rewrite app_nil_r. reflexivity.
    + intros c out' w2 Hc (-> & ->).
      assert (Hrc : in_range r c) by (split; lia).
      eexists _, w, _. split; [| split; [split; [reflexivity |] |]].
      * eapply run_bind; [apply load_in_range; [exact Hg | exact Hrc] |].
        apply if_ret.
      * replace (Z.to_nat (c + 1)) with (S (Z.to_nat c)) by lia.
        rewrite row_rects_S, Z2Nat.id by lia. fold m.
        destruct (truthy (cell m r c)).
        -- rewrite <- app_assoc. reflexivity.
        -- rewrite app_nil_r. reflexivity.
      * apply Forall_app. split; [| constructor].
        apply Forall_singleton. split; [reflexivity | exact Hrc].
    + exists (rows_rects m (Z.to_nat r) (Z.to_nat Columns)
              ++ row_rects m r (Z.to_nat Columns)), w, t.
      split; [exact Hrun |]. split; [| exact HT]. split; [reflexivity |].
      replace (Z.to_nat (r + 1)) with (S (Z.to_nat r)) by lia.
      rewrite rows_rects_S, Z2Nat.id by lia. reflexivity.
  - exists t. split; [exact Hrun | exact HT].
Qed.

Lemma elem_of_row_rects (m : matrix) (r : Z) (k : nat) (rect : SDL_FRect) :
  rect ∈ row_rects m r k <->
  exists c, 0 <= c < Z.of_nat k /\ cell m r c <> 0 /\ rect = cell_rect r c.
Proof.
  unfold row_rects. rewrite list_elem_of_fmap. split.
  - intros (c & -> & Hc). apply list_elem_of_In, List.filter_In in Hc as [Hin Halive].
    apply In_range in Hin. exists c. split; [lia |]. split; [| reflexivity].
    unfold truthy in Halive. destruct (Z.eqb_spec (cell m r c) 0); [discriminate | assumption].
  - intros (c & Hc & Halive & ->). exists c. split; [reflexivity |].
    apply list_elem_of_In, List.filter_In. split; [apply In_range; lia |].
    unfold truthy. destruct (Z.eqb_spec (cell m r c) 0); [contradiction | reflexivity].
Qed.

Lemma elem_of_live_rects (m : matrix) (rect : SDL_FRect) :
  rect ∈ live_rects m <->
  exists r c, in_range r c /\ cell m r c <> 0 /\ rect = cell_rect r c.
Proof.
  unfold live_rects, rows_rects. rewrite list_elem_of_In, in_concat. split.
  - intros (l & Hl & Hin). apply list_elem_of_In, list_elem_of_fmap in Hl as (r & -> & Hr).
    apply list_elem_of_In, In_range in Hr.
    apply list_elem_of_In, elem_of_row_rects in Hin as (c & Hc & Halive & ->).
    exists r, c. split; [split; lia |]. auto.
  - intros (r & c & [Hr Hc] & Halive & ->).
    exists (row_rects m r (Z.to_nat Columns)). split.
    + apply list_elem_of_In, list_elem_of_fmap. exists r. split; [reflexivity |].
      apply list_elem_of_In, In_range. lia.
    + apply list_elem_of_In, elem_of_row_rects. exists c. split; [lia |]. auto.
Qed.

Lemma elem_of_rows_rects (m : matrix) (n k : nat) (rect : SDL_FRect) :
  rect ∈ rows_rects m n k <->
  exists r c, 0 <= r < Z.of_nat n /\ 0 <= c < Z.of_nat k /\
              cell m r c <> 0 /\ rect = cell_rect r c.
Proof.
  unfold rows_rects. rewrite list_elem_of_In, in_concat. split.
  - intros (l & Hl & Hin). apply list_elem_of_In, list_elem_of_fmap in Hl as (r & -> & Hr).
    apply list_elem_of_In, In_range in Hr.
    apply list_elem_of_In, elem_of_row_rects in Hin as (c & Hc & Halive & ->).
    exists r, c. split; [lia |]. auto.
  - intros (r & c & Hr & Hc & Halive & ->).
    exists (row_rects m r k). split.
    + apply list_elem_of_In, list_elem_of_fmap. exists r. split; [reflexivity |].
      apply list_elem_of_In, In_range. lia.
    + apply list_elem_of_In, elem_of_row_rects. exists c. auto.
Qed.





(** A buffer with every cell DEAD draws nothing. *)
Lemma live_rects_dead (m : matrix) :
  (forall r c, in_range r c -> cell m r c = DEAD) -> live_rects m = [].
Proof.
  intros Hdead. destruct (live_rects m) as [| rect rects] eqn:Heq; [reflexivity |].
  assert (Hin : rect ∈ live_rects m) by (rewrite Heq; apply list_elem_of_here).
  unfold live_rects in Hin. apply elem_of_rows_rects in Hin as (r & c & Hr & Hc & Halive & _).
  exfalso. apply Halive. apply Hdead. split; lia.
Qed.

(** Every rectangle of a frame lies within the [Columns * CellSize] by
    [Rows * CellSize] pixels the grid covers. *)
Lemma live_rects_bounds (m : matrix) :
  Forall (fun rect =>
            0 <= Rect.x rect /\ Rect.x rect + Rect.w rect <= Columns * Settings.CellSize /\
            0 <= Rect.y rect /\ Rect.y rect + Rect.h rect <= Rows * Settings.CellSize /\
            Rect.w rect = Settings.CellSize /\ Rect.h rect = Settings.CellSize)
         (live_rects m).
Proof.
  apply Forall_forall. intros rect Hin.
  unfold live_rects in Hin. apply elem_of_rows_rects in Hin as (r & c & Hr & Hc & _ & ->).
  unfold cell_rect, Settings.CellSize. simpl. lia.
Qed.

(** ** The neighbour scan away from the in-range case *)

Lemma wrap_index_bounds (i d n : Z) :
  1 <= n <= INT_MAX -> 0 <= wrap_index i d n < n.
Proof.
  intros Hn. unfold wrap_index.
  pose proof (Z.mod_pos_bound (to_Uint32 (to_Uint32 (i + d) + n)) n ltac:(lia)) as Hb.
  rewrite to_int_small by lia. exact Hb.
Qed.

Lemma in_range_wrap (row r column c : Z) :
  in_range (wrap_index row r Rows) (wrap_index column c Columns).
Proof. split; apply wrap_index_bounds; assumption. Qed.

(** Line 88, [(row + r + Rows) % Rows], for an arbitrary [int] sum
    [i + d] and a dimension [n]: the index computed always lies in
    [0, n), and it is the residue of [i + d] modulo [n] as long as
    [i + d] is not below [-n], that is, at most one lap off the low
    edge. *)
Theorem wrap_index_one_lap (i d n : Z) :
  1 <= n <= INT_MAX -> INT_MIN <= i + d <= INT_MAX ->
  0 <= wrap_index i d n < n /\
  (- n <= i + d -> wrap_index i d n = (i + d) mod n).
Proof.
  intros Hn Hsum. split; [apply wrap_index_bounds; exact Hn |].
  intros Hlap. unfold wrap_index, INT_MAX, INT_MIN in *.
  assert (Hwrap : to_Uint32 (to_Uint32 (i + d) + n) = i + d + n).
  { unfold to_Uint32. rewrite Zplus_mod_idemp_l. apply Z.mod_small. lia. }
  rewrite Hwrap.
  replace (i + d + n) with (i + d + 1 * n) by lia. rewrite Z_mod_plus_full.
  apply to_int_small.
  pose proof (Z.mod_pos_bound (i + d) n ltac:(lia)). unfold INT_MAX. lia.
Qed.

(** [getNeighborCount] needs no in-range cell: on a buffer of the
    configured shape, for any [int] coordinates whose neighbours' sums do
    not overflow, it performs eight loads, all of them in range, changes
    nothing and returns a count between 0 and 8. *)
Theorem getNeighborCount_any_cell (grid : ref) (w : Globals) (row column : Z) :
  well_shaped (deref grid w) ->
  INT_MIN < row < INT_MAX -> INT_MIN < column < INT_MAX ->
  exists n t,
    getNeighborCount grid row column w = Some (n, w, t) /\
    length t = 8%nat /\
    Forall (fun e => exists r c, e = Load grid r c /\ in_range r c) t /\
    0 <= n <= 8.
Proof.
  intros Hm Hrow Hcolumn.
  eexists _, _. split.
  { unfold getNeighborCount, for_int_le, for_int. simpl.
    let rec run :=
      cbv beta;
      first [ apply count_step;
              [ exact Hm | apply in_range_wrap
              | repeat match goal with |- context [truthy ?v] => destruct (truthy v) end; lia ]
            | eapply run_bind; [run | run]
            | reflexivity ] in run. }
  split; [reflexivity |]. split.
  - simpl.
    repeat (apply Forall_cons; split;
            [eexists _, _; split; [reflexivity | apply in_range_wrap] |]).
    constructor.
  - repeat match goal with |- context [truthy ?v] => destruct (truthy v) end; lia.
Qed.

(** With at least three rows and three columns the eight cells
    [getNeighborCount] loads are pairwise distinct and none of them is the
    cell itself: every neighbour is counted once and the cell never counts
    itself. *)
Theorem getNeighborCount_distinct_cells (grid : ref) (w : Globals) (row column : Z) :
  3 <= Rows -> 3 <= Columns ->
  well_shaped (deref grid w) -> in_range row column ->
  exists n t,
    getNeighborCount grid row column w = Some (n, w, t) /\
    NoDup t /\
    Load grid row column ∉ t.
Proof.
  intros HR HC Hm [Hr Hc].
  eexists _, _. split; [apply getNeighborCount_in_range; [exact Hm | split; assumption] |].
  unfold neighbors, offsets. simpl.
  rewrite !mod_neighbor by lia.
  repeat match goal with
         | |- context [?a <? ?b] => destruct (Z.ltb_spec a b); try lia
         | |- context [?a <=? ?b] => destruct (Z.leb_spec a b); try lia
         end;
  (split;
   [ repeat (apply NoDup_cons; split;
             [rewrite ?elem_of_cons, elem_of_nil; intros Hin;
              repeat destruct Hin as [Hin | Hin]; try contradiction;
              injection Hin; lia |]);
     apply NoDup_nil; exact I
   | rewrite ?elem_of_cons, elem_of_nil; intros Hin;
     repeat destruct Hin as [Hin | Hin]; try contradiction;
     injection Hin; lia ]).
Qed.

(** ** Patterns and symmetries of one generation *)

(** On a 1 x 1 torus the one cell is all eight of its own neighbours: the
    scan returns 8 for a live cell and 0 for a dead one, so whatever the
    grid holds, it is DEAD after one [updateGrid]. *)
Theorem single_cell_torus_dies (w : Globals) :
  Rows = 1 -> Columns = 1 ->
  well_shaped (Grid w) -> well_shaped (NewGrid w) ->
  exists w' t tn,
    getNeighborCount RefGrid 0 0 w
      = Some (if truthy (cell (Grid w) 0 0) then 8 else 0, w, tn) /\
    updateGrid RefGrid RefNewGrid w = Some (tt, w', t) /\
    Grid w' = [[DEAD]].
Proof.
  intros HR HC Hg Hs.
  assert (H00 : in_range 0 0) by (unfold in_range; lia).
  assert (Hcount : count_alive (Grid w) (neighbors 0 0)
                   = if truthy (cell (Grid w) 0 0) then 8 else 0).
  { unfold neighbors, offsets, count_alive. simpl. rewrite HR, HC, !Z.mod_1_r.
    destruct (truthy _); reflexivity. }
  destruct (updateGrid_spec RefGrid RefNewGrid w ltac:(discriminate) Hg Hs) as (t & Hup & _).
  eexists _, _, _. split; [| split; [exact Hup |]].
  - rewrite <- Hcount. apply (getNeighborCount_in_range RefGrid); assumption.
  - simpl. apply matrix_ext.
    + apply next_generation_well_shaped.
    + unfold well_shaped. rewrite HR, HC. split; [reflexivity | repeat constructor].
    + intros r c [Hr Hc]. assert (r = 0) as -> by lia. assert (c = 0) as -> by lia.
      rewrite cell_next_generation by exact H00. rewrite Hcount.
      unfold rule. destruct (truthy _); reflexivity.
Qed.

(** A single live cell on a torus of at least 3 x 3 dies of
    underpopulation and gives birth to nothing: the grid is empty after
    one [updateGrid]. *)
Theorem lone_cell_dies (w : Globals) (r c : Z) :
  3 <= Rows -> 3 <= Columns -> in_range r c ->
  well_shaped (NewGrid w) ->
  alive_exactly (Grid w) [(r, c)] ->
  exists w' t,
    updateGrid RefGrid RefNewGrid w = Some (tt, w', t) /\
    forall i j, in_range i j -> matrix_get (Grid w') i j = Some DEAD.
Proof.
  intros HR HC [Hr Hc] Hs [Hg Hcells].
  destruct (updateGrid_spec RefGrid RefNewGrid w ltac:(discriminate) Hg Hs) as (t & Hup & _).
  eexists _, _. split; [exact Hup |]. simpl.
  intros i j [Hi Hj].
  rewrite matrix_get_in_range by (apply next_generation_well_shaped || (split; assumption)).
  rewrite cell_next_generation by (split; assumption). f_equal.
  assert (Hcell : forall x y, in_range x y ->
            cell (Grid w) x y = if (x =? r) && (y =? c) then 1 else 0).
  { intros x y Hxy. rewrite (Hcells x y Hxy).
    destruct (Z.eqb_spec x r), (Z.eqb_spec y c); simpl;
      [rewrite bool_decide_eq_true_2 | rewrite bool_decide_eq_false_2 ..];
      rewrite ?elem_of_cons, ?elem_of_nil; try reflexivity;
      first [ left; congruence | intros [Heq | []]; congruence ]. }
  unfold neighbors, count_alive. simpl.
  rewrite !Z.add_0_r, !(Z.mod_small i Rows), !(Z.mod_small j Columns) by lia.
  rewrite !Hcell
    by first [ apply in_range_mod | apply in_range_mod_l; lia
             | apply in_range_mod_r; lia | split; lia ].
  rewrite !bit_truthy.
  pose proof (center_among_neighbors Rows r i HR Hr Hi) as HE.
  pose proof (center_among_neighbors Columns c j HC Hc Hj) as HF.
  cbv zeta in HE, HF.
  destruct HE as [(-> & -> & -> & _) | [(-> & -> & -> & _) |
                 [(-> & -> & -> & _) | (-> & -> & -> & _)]]];
    destruct HF as [(-> & -> & -> & _) | [(-> & -> & -> & _) |
                   [(-> & -> & -> & _) | (-> & -> & -> & _)]]];
    reflexivity.
Qed.

(** On a ring of at least three positions: at a position of the pair,
    exactly one of [q - 1] and [q + 1] is in the pair too. *)
Lemma pair_among_neighbors (n p q : Z) :
  3 <= n -> 0 <= p < n -> 0 <= q < n ->
  let p1 := in_pair n p ((q + -1) mod n) in
  let p2 := in_pair n p q in
  let p3 := in_pair n p ((q + 1) mod n) in
  (p2 = true /\ p1 = negb p3) \/ p2 = false.
Proof.
  intros Hn Hp Hq. unfold in_pair.
  rewrite !mod_neighbor by lia.
  repeat match goal with
         | |- context [?a <? ?b] => destruct (Z.ltb_spec a b); try lia
         | |- context [?a <=? ?b] => destruct (Z.leb_spec a b); try lia
         end;
  repeat match goal with
         | |- context [?a =? ?b] => destruct (Z.eqb_spec a b); try lia
         end; simpl; tauto.
Qed.

Lemma elem_of_block (r c x y : Z) :
  bool_decide ((x, y) ∈ block r c) = in_pair Rows r x && in_pair Columns c y.
Proof.
  unfold block, in_pair.
  destruct (Z.eqb_spec x r), (Z.eqb_spec x ((r + 1) mod Rows)),
    (Z.eqb_spec y c), (Z.eqb_spec y ((c + 1) mod Columns)); simpl;
    (apply bool_decide_eq_true || apply bool_decide_eq_false);
    rewrite ?elem_of_cons, ?elem_of_nil; subst; try tauto;
    intros Hin; repeat destruct Hin as [Hin | Hin]; congruence.
Qed.

(** The block is a still life: on a torus of at least 3 x 3, a grid whose
    only live cells are a 2 x 2 block (anywhere, also across an edge) is
    unchanged by [updateGrid]. *)
Theorem block_still_life (w : Globals) (r c : Z) :
  3 <= Rows -> 3 <= Columns -> in_range r c ->
  well_shaped (NewGrid w) ->
  alive_exactly (Grid w) (block r c) ->
  exists w' t,
    updateGrid RefGrid RefNewGrid w = Some (tt, w', t) /\
    Grid w' = Grid w.
Proof.
  intros HR HC [Hr Hc] Hs [Hg Hcells].
  destruct (updateGrid_spec RefGrid RefNewGrid w ltac:(discriminate) Hg Hs) as (t & Hup & _).
  eexists _, _. split; [exact Hup |]. simpl.
  apply matrix_ext; [apply next_generation_well_shaped | exact Hg |].
  intros i j [Hi Hj].
  rewrite cell_next_generation by (split; assumption).
  assert (Hcell : forall x y, in_range x y ->
            cell (Grid w) x y = if in_pair Rows r x && in_pair Columns c y then 1 else 0).
  { intros x y Hxy. rewrite (Hcells x y Hxy), elem_of_block. reflexivity. }
  unfold neighbors, count_alive. simpl.
  rewrite !Z.add_0_r, !(Z.mod_small i Rows), !(Z.mod_small j Columns) by lia.
  rewrite !Hcell
    by first [ apply in_range_mod | apply in_range_mod_l; lia
             | apply in_range_mod_r; lia | split; lia ].
  rewrite !bit_truthy.
  pose proof (pair_among_neighbors Rows r i HR Hr Hi) as HP.
  pose proof (pair_among_neighbors Columns c j HC Hc Hj) as HQ.
  cbv zeta in HP, HQ.
  destruct HP as [(-> & ->) | ->]; destruct HQ as [(-> & ->) | ->];
    repeat match goal with
           | |- context [in_pair ?n ?p ?q] => destruct (in_pair n p q)
           end; reflexivity.
Qed.

Lemma shift_neighbor (r a d n : Z) :
  ((r + a) mod n + d) mod n = ((r + d) mod n + a) mod n.
Proof. rewrite !Zplus_mod_idemp_l. f_equal. lia. Qed.

Lemma shifted_next_generation (dr dc : Z) (m1 m2 : matrix) :
  shifted dr dc m1 m2 -> shifted dr dc (next_generation m1) (next_generation m2).
Proof.
  intros (Hm1 & Hm2 & Hcells).
  split; [apply next_generation_well_shaped |].
  split; [apply next_generation_well_shaped |].
  intros r c Hrc.
  rewrite !cell_next_generation by (exact Hrc || apply in_range_mod).
  rewrite (Hcells r c Hrc). f_equal.
  unfold neighbors, count_alive. simpl.
  rewrite !Hcells by apply in_range_mod.
  rewrite (shift_neighbor r (-1) dr), (shift_neighbor r 0 dr), (shift_neighbor r 1 dr).
  rewrite (shift_neighbor c (-1) dc), (shift_neighbor c 0 dc), (shift_neighbor c 1 dc).
  reflexivity.
Qed.

(** The torus has no edge: if one grid is another moved by [(dr, dc)]
    around the torus, their next generations are moved by [(dr, dc)] in
    the same way. *)
Theorem updateGrid_commutes_with_shift (dr dc : Z) (w1 w2 : Globals) :
  well_shaped (NewGrid w1) -> well_shaped (NewGrid w2) ->
  shifted dr dc (Grid w1) (Grid w2) ->
  exists w1' w2' t1 t2,
    updateGrid RefGrid RefNewGrid w1 = Some (tt, w1', t1) /\
    updateGrid RefGrid RefNewGrid w2 = Some (tt, w2', t2) /\
    shifted dr dc (Grid w1') (Grid w2').
Proof.
  intros Hs1 Hs2 Hshift. pose proof Hshift as (Hg1 & Hg2 & _).
  destruct (updateGrid_spec RefGrid RefNewGrid w1 ltac:(discriminate) Hg1 Hs1)
    as (t1 & Hup1 & _).
  destruct (updateGrid_spec RefGrid RefNewGrid w2 ltac:(discriminate) Hg2 Hs2)
    as (t2 & Hup2 & _).
  eexists _, _, _, _. split; [exact Hup1 |]. split; [exact Hup2 |].
  simpl. apply shifted_next_generation. exact Hshift.
Qed.

(** ** The callbacks in sequence *)

(** [SDL_AppInit]: if SDL or the window cannot be set up it reports
    failure, creates no [Application] and leaves the globals alone (the
    grid is not seeded); otherwise it seeds [Grid], and only [Grid], with
    one [std::rand] value per cell, and hands back a running application
    whose status is "continue". *)
Theorem SDL_AppInit_outcomes (init_ok create_ok : bool) (win ren : Z) (w : Globals) :
  well_shaped (Grid w) ->
  (init_ok && create_ok = false ->
   SDL_AppInit init_ok create_ok win ren w = Some ((SDL_APP_FAILURE, None), w, [])) /\
  (init_ok && create_ok = true ->
   exists w' t,
     SDL_AppInit init_ok create_ok win ren w
       = Some ((SDL_APP_CONTINUE,
                Some (mkApplication win ren SDL_APP_CONTINUE true)), w', t) /\
     Grid w' = tabulate (seeded (rand_calls w)) /\
     NewGrid w' = NewGrid w /\
     rand_calls w' = (rand_calls w + Z.to_nat (Rows * Columns))%nat).
Proof.
  intros Hg. split.
  - destruct init_ok, create_ok; simpl; intros H; try discriminate; reflexivity.
  - destruct init_ok, create_ok; simpl; intros H; try discriminate.
    destruct (initGrid_spec RefGrid w Hg) as (t & Hrun & _).
    eexists _, _. split; [eapply run_bind; [exact Hrun | reflexivity] |].
    simpl. auto.
Qed.

(** A quit request does not stop anything by itself: [SDL_AppEvent] still
    answers "continue", touches no global and performs no access; the
    record it hands back differs from the one it was given in the status
    only, which is now "success" (window, renderer and the run/pause flag
    are as before). The next [SDL_AppIterate] still draws its frame, the
    rectangles [drawGrid] yields for the grid, still updates the grid if
    the simulation is running, and is what returns "success". *)
Theorem quit_is_reported_by_the_next_frame (app : Application) (w : Globals) :
  well_shaped (Grid w) -> well_shaped (NewGrid w) ->
  exists app' rects td w' t,
    app' = mkApplication (window app) (renderer app) SDL_APP_SUCCESS (runSimulation app) /\
    SDL_AppEvent app SDL_EVENT_QUIT w = Some ((SDL_APP_CONTINUE, app'), w, []) /\
    drawGrid RefGrid w = Some (rects, w, td) /\
    SDL_AppIterate app' w = Some ((SDL_APP_SUCCESS, rects), w', t) /\
    (runSimulation app = true -> Grid w' = next_generation (Grid w)) /\
    (runSimulation app = false -> w' = w /\ t = td).
Proof.
  intros Hg Hs.
  destruct (drawGrid_returns RefGrid w Hg) as (td & Hdraw & _).
  destruct (updateGrid_spec RefGrid RefNewGrid w ltac:(discriminate) Hg Hs) as (tu & Hup & _).
  assert (Hframe : exists w' t,
            SDL_AppIterate
              (mkApplication (window app) (renderer app) SDL_APP_SUCCESS (runSimulation app)) w
            = Some ((SDL_APP_SUCCESS, live_rects (deref RefGrid w)), w', t) /\
            (runSimulation app = true -> Grid w' = next_generation (Grid w)) /\
            (runSimulation app = false -> w' = w /\ t = td)).
  { unfold SDL_AppIterate. simpl. destruct (runSimulation app).
    - eexists _, _. split.
      + eapply run_bind; [exact Hdraw |]. eapply run_bind; [exact Hup | reflexivity].
      + split; [reflexivity | discriminate].
    - exists w. eexists. split.
      + eapply run_bind; [exact Hdraw |]. eapply run_bind; reflexivity.
      + split; [discriminate |]. intros _. split; [reflexivity |].
        simpl. apply app_nil_r. }
  destruct Hframe as (w' & t & Hiterate & Hrunning & Hpaused).
  eexists _, _, td, w', t. split; [reflexivity |]. split; [reflexivity |].
  split; [exact Hdraw |]. split; [exact Hiterate |]. split; assumption.
Qed.

(** One frame: [SDL_AppIterate] returns the application's status and the
    rectangles of the generation it finds, drawn before the update; then
    [Grid] is one generation on if the simulation is running, and nothing
    at all has changed if it is paused. *)
Theorem SDL_AppIterate_frame (app : Application) (w : Globals) :
  well_shaped (Grid w) -> well_shaped (NewGrid w) ->
  exists rects td w' t,
    drawGrid RefGrid w = Some (rects, w, td) /\
    SDL_AppIterate app w = Some ((status app, rects), w', t) /\
    (runSimulation app = true -> Grid w' = next_generation (Grid w)) /\
    (runSimulation app = false -> w' = w /\ t = td).
Proof.
  intros Hg Hs.
  destruct (drawGrid_returns RefGrid w Hg) as (td & Hdraw & _).
  destruct (updateGrid_spec RefGrid RefNewGrid w ltac:(discriminate) Hg Hs) as (tu & Hup & _).
  unfold SDL_AppIterate. destruct (runSimulation app).
  - eexists _, td, _, _. split; [exact Hdraw |]. split.
    + eapply run_bind; [exact Hdraw |]. eapply run_bind; [exact Hup | reflexivity].
    + split; [reflexivity | discriminate].
  - eexists _, td, w, _. split; [exact Hdraw |]. split.
    + eapply run_bind; [exact Hdraw |]. eapply run_bind; reflexivity.
    + split; [discriminate |]. intros _. split; [reflexivity |].
      simpl. apply app_nil_r.
Qed.

Lemma run_callbacks_app (app : Application) (cbs1 cbs2 : list callback)
      (w w1 w2 : Globals) (app1 app2 : Application) (t1 t2 : list access) :
  run_callbacks app cbs1 w = Some (app1, w1, t1) ->
  run_callbacks app1 cbs2 w1 = Some (app2, w2, t2) ->
  run_callbacks app (cbs1 ++ cbs2) w = Some (app2, w2, t1 ++ t2).
Proof.
  revert app w t1. induction cbs1 as [| cb cbs1 IH]; intros app w t1 H1 H2; simpl in *.
  - injection H1 as -> -> <-. exact H2.
  - unfold bind in H1 |- *.
    destruct (run_callback app cb w) as [[[app0 w0] t0] |]; [| discriminate].
    destruct (run_callbacks app0 cbs1 w0) as [[[app3 w3] t3] |] eqn:Hrest; [| discriminate].
    injection H1 as -> -> <-.
    rewrite (IH _ _ _ Hrest H2). rewrite app_assoc. reflexivity.
Qed.

Lemma paused_frames (app : Application) (k : nat) (w : Globals) :
  runSimulation app = false -> well_shaped (Grid w) ->
  exists t,
    run_callbacks app (replicate k OnIterate) w = Some (app, w, t) /\
    Forall (draw_access RefGrid) t.
Proof.
  intros Hpaused Hg. induction k as [| k (t & Hrun & HT)].
  - exists []. split; [reflexivity | constructor].
  - destruct (drawGrid_returns RefGrid w Hg) as (td & Hdraw & HTd).
    eexists. split.
    + simpl. eapply run_bind; [| exact Hrun].
      eapply run_bind; [| reflexivity].
      unfold SDL_AppIterate. rewrite Hpaused.
      eapply run_bind; [exact Hdraw |]. eapply run_bind; reflexivity.
    + repeat (apply Forall_app; split); try constructor; assumption.
Qed.

(** While the simulation is paused, frames only draw: any number of
    [SDL_AppIterate] calls leaves the application and every global as
    they were, and all they do is read in-range cells of [Grid]. *)
Theorem paused_frames_change_nothing (app : Application) (k : nat) (w : Globals) :
  runSimulation app = false -> well_shaped (Grid w) ->
  exists t,
    run_callbacks app (replicate k OnIterate) w = Some (app, w, t) /\
    Forall (fun e => exists r c, e = Load RefGrid r c /\ in_range r c) t.
Proof.
  intros Hpaused Hg. destruct (paused_frames app k w Hpaused Hg) as (t & Hrun & HT).
  exists t. split; [exact Hrun |].
  eapply Forall_impl; [exact HT |].
  intros [b r c | b r c v | dst src]; simpl; try tauto.
  intros [-> Hrc]. exists r, c. auto.
Qed.

(** While the simulation runs, [k] frames advance the grid by exactly [k]
    generations; the application record and the random generator are
    untouched. *)
Theorem running_frames_advance_generations (app : Application) (k : nat) (w : Globals) :
  runSimulation app = true ->
  well_shaped (Grid w) -> well_shaped (NewGrid w) ->
  exists w' t,
    run_callbacks app (replicate k OnIterate) w = Some (app, w', t) /\
    Grid w' = generations k (Grid w) /\
    rand_calls w' = rand_calls w.
Proof.
  intros Hrunning. revert w. induction k as [| k IH]; intros w Hg Hs.
  - exists w, []. split; [reflexivity |]. split; reflexivity.
  - destruct (drawGrid_returns RefGrid w Hg) as (td & Hdraw & _).
    destruct (updateGrid_spec RefGrid RefNewGrid w ltac:(discriminate) Hg Hs)
      as (tu & Hup & _).
    simpl in Hup.
    set (w1 := assign_ref RefGrid (next_generation (Grid w))
                 (assign_ref RefNewGrid (next_generation (Grid w)) w)) in *.
    destruct (IH w1 (next_generation_well_shaped _) (next_generation_well_shaped _))
      as (w' & t & Hrest & Hgrid & Hrand).
    eexists w', _. split; [| split].
    + simpl. eapply run_bind; [| exact Hrest].
      eapply run_bind; [| reflexivity].
      unfold SDL_AppIterate. rewrite Hrunning.
      eapply run_bind; [exact Hdraw |]. eapply run_bind; [exact Hup | reflexivity].
    + rewrite Hgrid. unfold generations. rewrite Nat.iter_succ_r. reflexivity.
    + rewrite Hrand. reflexivity.
Qed.

(** Pausing is a round trip: from a running application, the space bar,
    any number of frames, and the space bar again leave the application
    record and every global exactly as they were. *)
Theorem pause_and_resume (app : Application) (k : nat) (w : Globals) :
  runSimulation app = true -> well_shaped (Grid w) ->
  exists t,
    run_callbacks app
      (OnEvent (SDL_EVENT_KEY_DOWN SDLK_SPACE) :: replicate k OnIterate
       ++ [OnEvent (SDL_EVENT_KEY_DOWN SDLK_SPACE)]) w
    = Some (app, w, t).
Proof.
  intros Hrunning Hg.
  set (paused := mkApplication (window app) (renderer app) (status app) false).
  destruct (paused_frames paused k w eq_refl Hg) as (t & Hframes & _).
  eexists. simpl. eapply run_bind.
  - eapply run_bind; reflexivity.
  - simpl. rewrite Hrunning. simpl. fold paused.
    eapply run_callbacks_app; [exact Hframes |].
    simpl. eapply run_bind; [eapply run_bind; reflexivity |].
    simpl. rewrite <- Hrunning. destruct app; reflexivity.
Qed.

(** A quit request is never lost: once the status is "success", no
    sequence of later events and frames changes it (and each of them still
    succeeds). *)
Theorem quit_request_is_kept (cbs : list callback) (app : Application) (w : Globals) :
  status app = SDL_APP_SUCCESS -> grid_invariant w ->
  exists app' w' t,
    run_callbacks app cbs w = Some (app', w', t) /\ status app' = SDL_APP_SUCCESS.
Proof.
  revert app w. induction cbs as [| cb cbs IH]; intros app w Hstatus Hinv.
  - exists app, w, []. split; [reflexivity | exact Hstatus].
  - assert (Hcb : exists app1 w1 t1,
              run_callback app cb w = Some (app1, w1, t1) /\
              status app1 = SDL_APP_SUCCESS /\ grid_invariant w1).
    { destruct cb as [event |]; simpl.
      - destruct (SDL_AppEvent_invariant app event w Hinv) as (res & w1 & t1 & Hrun & Hinv1).
        exists (snd res), w1, (t1 ++ []).
        split; [eapply run_bind; [exact Hrun | reflexivity] |]. split; [| exact Hinv1].
        destruct event as [| [| |] |]; simpl in Hrun.
        + injection Hrun as <- _ _. reflexivity.
        + injection Hrun as <- _ _. exact Hstatus.
        + unfold bind in Hrun.
          destruct (initGrid RefGrid w) as [[[u w2] t2] |]; [| discriminate].
          injection Hrun as <- _ _. exact Hstatus.
        + injection Hrun as <- _ _. exact Hstatus.
        + injection Hrun as <- _ _. exact Hstatus.
      - destruct (SDL_AppIterate_invariant app w Hinv) as (res & w1 & t1 & Hrun & Hinv1).
        exists app, w1, (t1 ++ []).
        split; [eapply run_bind; [exact Hrun | reflexivity] |]. split; assumption. }
    destruct Hcb as (app1 & w1 & t1 & Hrun1 & Hstatus1 & Hinv1).
    destruct (IH app1 w1 Hstatus1 Hinv1) as (app2 & w2 & t2 & Hrun2 & Hstatus2).
    exists app2, w2, (t1 ++ t2). split; [| exact Hstatus2].
    simpl. eapply run_bind; [exact Hrun1 | exact Hrun2].
Qed.

(** ** Seeding, cell by cell *)

(** [initGrid] on a buffer of the configured shape overwrites every cell,
    whatever it held: the cell at [(r, c)] becomes ALIVE exactly when the
    [std::rand] value drawn for it, the one of index [r * Columns + c]
    counted from the call, leaves a remainder below 10 modulo 100. The
    generator is advanced by one call per cell, the other buffer is not
    touched, and the only accesses are stores to in-range cells. *)
Theorem initGrid_overwrites (grid : ref) (w : Globals) :
  well_shaped (deref grid w) ->
  exists w' t,
    initGrid grid w = Some (tt, w', t) /\
    (forall r c, in_range r c ->
       matrix_get (deref grid w') r c
       = Some (if Z.rem (std_rand (rand_calls w + Z.to_nat (r * Columns + c))%nat) 100 <? 10
               then ALIVE else DEAD)) /\
    rand_calls w' = (rand_calls w + Z.to_nat (Rows * Columns))%nat /\
    (forall b, b <> grid -> deref b w' = deref b w) /\
    Forall (fun e => exists r c v, e = Store grid r c v /\ in_range r c) t.
Proof.
  intros Hg. destruct (initGrid_spec grid w Hg) as (t & Hrun & HT).
  eexists _, t. split; [exact Hrun |]. split; [| split; [| split]].
  - intros r c Hrc. rewrite deref_assign_same.
    rewrite matrix_get_in_range by (apply tabulate_well_shaped || exact Hrc).
    rewrite cell_tabulate by exact Hrc. reflexivity.
  - rewrite rand_calls_assign. reflexivity.
  - intros b Hb. rewrite deref_assign_other by congruence. destruct b; reflexivity.
  - eapply Forall_impl; [exact HT |].
    intros [b r c | b r c v | dst src]; simpl; try tauto.
    intros (-> & Hrc & _). exists r, c, v. auto.
Qed.

(** ** The cost of one generation *)

Lemma count_accesses_app (kind : access -> bool) (t1 t2 : list access) :
  count_accesses kind (t1 ++ t2) = (count_accesses kind t1 + count_accesses kind t2)%nat.
Proof. unfold count_accesses. rewrite List.filter_app, length_app. reflexivity. Qed.

Lemma count_accesses_all (t : list access) :
  count_accesses (fun _ => true) t = length t.
Proof.
  unfold count_accesses. induction t as [| e t IH]; simpl; [| rewrite IH]; reflexivity.
Qed.

(** The invariant rule for a loop whose every iteration makes the same
    number [k] of accesses of some kind. *)
Lemma for_each_count {A : Type} (I : nat -> A -> Globals -> Prop) (kind : access -> bool)
      (k : nat) (idx : list Z) (body : Z -> A -> M A) (a : A) (w : Globals) :
  I O a w ->
  (forall j i a w, idx !! j = Some i -> I j a w ->
     exists a' w' t, body i a w = Some (a', w', t) /\ I (S j) a' w' /\
                     count_accesses kind t = k) ->
  exists a' w' t,
    for_each idx body a w = Some (a', w', t) /\ I (length idx) a' w' /\
    count_accesses kind t = (length idx * k)%nat.
Proof.
  revert I a w. induction idx as [| i idx IH]; intros I a w H0 Hbody.
  - exists a, w, []. simpl. auto.
  - destruct (Hbody O i a w eq_refl H0) as (a1 & w1 & t1 & Hrun & H1 & Hk1).
    destruct (IH (fun j => I (S j)) a1 w1 H1) as (a2 & w2 & t2 & Hrest & H2 & Hk2).
    { intros j i' a' w' Hj. apply (Hbody (S j) i' a' w' Hj). }
    exists a2, w2, (t1 ++ t2). simpl.
    rewrite (bind_Some _ _ _ _ _ _ Hrun), Hrest.
    split; [reflexivity |]. split; [exact H2 |].
    rewrite count_accesses_app, Hk1, Hk2. reflexivity.
Qed.

Lemma for_int_count {A : Type} (I : Z -> A -> Globals -> Prop) (kind : access -> bool)
      (k : nat) (lo hi : Z) (body : Z -> A -> M A) (a : A) (w : Globals) :
  lo <= hi ->
  I lo a w ->
  (forall i a w, lo <= i < hi -> I i a w ->
     exists a' w' t, body i a w = Some (a', w', t) /\ I (i + 1) a' w' /\
                     count_accesses kind t = k) ->
  exists a' w' t,
    for_int lo hi body a w = Some (a', w', t) /\ I hi a' w' /\
    count_accesses kind t = (Z.to_nat (hi - lo) * k)%nat.
Proof.
  intros Hle H0 Hbody. unfold for_int.
  destruct (for_each_count (fun j => I (lo + Z.of_nat j)) kind k
              (range lo (Z.to_nat (hi - lo))) body a w) as (a' & w' & t & Hrun & Hend & Hk).
  - replace (lo + Z.of_nat 0) with lo by lia. exact H0.
  - intros j i a0 w0 Hj Hinv.
    assert (Hlt : (j < Z.to_nat (hi - lo))%nat).
    { apply lookup_lt_Some in Hj. rewrite length_range in Hj. exact Hj. }
    rewrite lookup_range in Hj by exact Hlt. injection Hj as <-.
    replace (lo + Z.of_nat (S j)) with (lo + Z.of_nat j + 1) by lia.
    apply Hbody; [lia | exact Hinv].
  - exists a', w', t. rewrite length_range in Hend, Hk.
    replace (lo + Z.of_nat (Z.to_nat (hi - lo))) with hi in Hend by lia.
    auto.
Qed.

Lemma step_count (kind : access -> bool) (k : nat) (w : Globals) :
  well_shaped (Grid w) -> well_shaped (NewGrid w) ->
  (forall r c v,
     count_accesses kind (((fun p => Load RefGrid (fst p) (snd p)) <$> neighbors r c)
                          ++ [Load RefGrid r c] ++ [Store RefNewGrid r c v]) = k) ->
  exists w' t,
    step RefGrid RefNewGrid w = Some (tt, w', t) /\
    count_accesses kind t = (Z.to_nat Rows * (Z.to_nat Columns * k))%nat.
Proof.
  intros Hg Hs Hk. unfold step.
  set (f := fun r c => rule (cell (Grid w) r c) (count_alive (Grid w) (neighbors r c))).
  set (I := fun (r j : Z) (_ : unit) (w' : Globals) =>
              exists m, w' = assign_ref RefNewGrid m w /\ filled f (NewGrid w) m r j).
  match goal with
  | |- context [for_int 0 Rows ?body tt w] =>
      destruct (for_int_count (fun r => I r 0) kind (Z.to_nat Columns * k)
                  0 Rows body tt w) as ([] & w' & t & Hrun & _ & Hcount)
  end.
  - lia.
  - exists (NewGrid w). split; [destruct w; reflexivity |]. apply filled_start, Hs.
  - intros r [] w1 Hr (m1 & -> & Hfill1).
    match goal with
    | |- context [for_int 0 Columns ?body tt _] =>
        destruct (for_int_count (I r) kind k 0 Columns body tt
                    (assign_ref RefNewGrid m1 w))
          as ([] & w2 & t2 & Hrun2 & (m2 & -> & Hfill2) & Hcount2)
    end.
    + lia.
    + exists m1. auto.
    + intros c [] w3 Hc (m3 & -> & Hfill3).
      assert (Hrc : in_range r c) by (split; lia).
      destruct (store_filled f RefNewGrid _ m3 r c w Hfill3 Hrc) as (m4 & Hstore & Hfill4).
      exists tt, (assign_ref RefNewGrid m4 w). eexists. split; [| split].
      * eapply run_bind.
        { apply getNeighborCount_in_range; [exact Hg | exact Hrc]. }
        eapply run_bind.
        { apply load_in_range; [exact Hg | exact Hrc]. }
        rewrite rule_branches. exact Hstore.
      * exists m4. auto.
      * apply Hk.
    + exists tt, (assign_ref RefNewGrid m2 w), t2.
      split; [exact Hrun2 |]. split.
      * exists m2. split; [reflexivity |]. apply filled_next_row, Hfill2.
      * rewrite Hcount2. f_equal. lia.
  - exists w', t. split; [exact Hrun |]. rewrite Hcount. f_equal. lia.
Qed.

(** One generation costs, for each of the [Rows * Columns] cells, nine
    loads (the eight neighbours and the cell itself) and one store, and
    then a single copy of the whole buffer, which is the last access. *)
Theorem updateGrid_access_count (w : Globals) :
  well_shaped (Grid w) -> well_shaped (NewGrid w) ->
  exists w' t,
    updateGrid RefGrid RefNewGrid w = Some (tt, w', t ++ [CopyAssign RefGrid RefNewGrid]) /\
    count_accesses is_load t = Z.to_nat (9 * (Rows * Columns)) /\
    count_accesses is_store t = Z.to_nat (Rows * Columns) /\
    length t = Z.to_nat (10 * (Rows * Columns)).
Proof.
  intros Hg Hs.
  destruct (step_count is_load 9 w Hg Hs ltac:(intros; reflexivity)) as (w1 & t1 & Hstep1 & Hloads).
  destruct (step_count is_store 1 w Hg Hs ltac:(intros; reflexivity)) as (w2 & t2 & Hstep2 & Hstores).
  destruct (step_count (fun _ => true) 10 w Hg Hs ltac:(intros; reflexivity))
    as (w3 & t3 & Hstep3 & Hall).
  rewrite Hstep1 in Hstep2, Hstep3.
  injection Hstep2 as <- <-. injection Hstep3 as _ <-.
  eexists _, t1. split; [| split; [| split]].
  - unfold updateGrid. eapply run_bind; [exact Hstep1 | reflexivity].
  - rewrite Hloads. nia.
  - rewrite Hstores. nia.
  - rewrite count_accesses_all in Hall. rewrite Hall. nia.
Qed.

(** ** Cells are conditions *)

Lemma count_alive_truthy (m1 m2 : matrix) (cells : list (Z * Z)) :
  Forall (fun p => in_range (fst p) (snd p)) cells ->
  (forall r c, in_range r c -> truthy (cell m1 r c) = truthy (cell m2 r c)) ->
  count_alive m1 cells = count_alive m2 cells.
Proof.
  intros Hcells Hsame. induction Hcells as [| p cells Hp _ IH]; simpl; [reflexivity |].
  rewrite (Hsame _ _ Hp), IH. reflexivity.
Qed.

(** [updateGrid] only looks at whether a cell is zero: two grids that are
    non-zero at the same coordinates, whatever the non-zero bytes are,
    have the same next generation. *)
Theorem updateGrid_reads_cells_as_conditions (w1 w2 : Globals) :
  well_shaped (Grid w1) -> well_shaped (NewGrid w1) ->
  well_shaped (Grid w2) -> well_shaped (NewGrid w2) ->
  (forall r c, in_range r c ->
     (cell (Grid w1) r c = 0 <-> cell (Grid w2) r c = 0)) ->
  exists w1' w2' t1 t2,
    updateGrid RefGrid RefNewGrid w1 = Some (tt, w1', t1) /\
    updateGrid RefGrid RefNewGrid w2 = Some (tt, w2', t2) /\
    Grid w1' = Grid w2'.
Proof.
  intros Hg1 Hs1 Hg2 Hs2 Hsame.
  destruct (updateGrid_spec RefGrid RefNewGrid w1 ltac:(discriminate) Hg1 Hs1)
    as (t1 & Hup1 & _).
  destruct (updateGrid_spec RefGrid RefNewGrid w2 ltac:(discriminate) Hg2 Hs2)
    as (t2 & Hup2 & _).
  eexists _, _, _, _. split; [exact Hup1 |]. split; [exact Hup2 |]. simpl.
  assert (Htruthy : forall r c, in_range r c ->
            truthy (cell (Grid w1) r c) = truthy (cell (Grid w2) r c)).
  { intros r c Hrc. specialize (Hsame r c Hrc). unfold truthy.
    destruct (Z.eqb_spec (cell (Grid w1) r c) 0), (Z.eqb_spec (cell (Grid w2) r c) 0);
      try reflexivity; tauto. }
  apply matrix_ext; try apply next_generation_well_shaped.
  intros r c Hrc. rewrite !cell_next_generation by exact Hrc.
  unfold rule. rewrite (Htruthy r c Hrc).
  rewrite (count_alive_truthy _ _ _ (neighbors_in_range r c) Htruthy). reflexivity.
Qed.

End Program.

(** * The theorems at work on small configurations *)

Import Samples.

Lemma dimensions_3x4 : (1 <= 3 <= INT_MAX) /\ (1 <= 4 <= INT_MAX).
Proof. unfold INT_MAX. lia. Qed.

(** The shipped configuration is within the bounds the theorems assume. *)
Lemma Settings_dimensions :
  Settings.Rows = 450 /\ Settings.Columns = 800 /\
  1 <= Settings.Rows <= INT_MAX /\ 1 <= Settings.Columns <= INT_MAX.
Proof. vm_compute. intuition congruence. Qed.

(** On a 1 x 1 torus the one cell is reached through all eight offsets. *)
Example getNeighborCount_1x1 :
  getNeighborCount 1 1 RefGrid 0 0 globals_1x1
  = Some (8, globals_1x1, replicate 8 (Load RefGrid 0 0)).
Proof. reflexivity. Qed.

(** On a 1 x 3 torus the two live cells of the row are each seen three
    times from the dead one between them. *)
Example getNeighborCount_1x3 :
  fst <$> (fst <$> getNeighborCount 1 3 RefGrid 0 1 globals_1x3) = Some 6.
Proof. reflexivity. Qed.

(** Without the wrap an access leaves the buffer: the scan fails on a
    buffer smaller than the dimensions it is run with. *)
Example getNeighborCount_misshaped :
  getNeighborCount 3 4 RefGrid 0 0 globals_1x3 = None.
Proof. reflexivity. Qed.

Lemma step_applies_rule_witness :
  (1 <= 3 <= INT_MAX) /\ (1 <= 4 <= INT_MAX) /\
  well_shaped 3 4 (Grid globals_3x4) /\ well_shaped 3 4 (NewGrid globals_3x4) /\
  (in_range 3 4 0 1 /\
   exists w' t n tn,
     step 3 4 RefGrid RefNewGrid globals_3x4 = Some (tt, w', t) /\
     n = count_alive (Grid globals_3x4) (neighbors 3 4 0 1) /\
     getNeighborCount 3 4 RefGrid 0 1 globals_3x4 = Some (n, globals_3x4, tn) /\
     (cell (Grid globals_3x4) 0 1 = ALIVE ->
        (cell (NewGrid w') 0 1 = DEAD <-> n < 2 \/ n > 3) /\
        (cell (NewGrid w') 0 1 = ALIVE <-> n = 2 \/ n = 3)) /\
     (cell (Grid globals_3x4) 0 1 = DEAD ->
        (cell (NewGrid w') 0 1 = ALIVE <-> n = 3) /\
        (cell (NewGrid w') 0 1 = DEAD <-> n <> 3))) /\
  (in_range 3 4 0 0 /\
   exists w' t n tn,
     step 3 4 RefGrid RefNewGrid globals_3x4 = Some (tt, w', t) /\
     n = count_alive (Grid globals_3x4) (neighbors 3 4 0 0) /\
     getNeighborCount 3 4 RefGrid 0 0 globals_3x4 = Some (n, globals_3x4, tn) /\
     (cell (Grid globals_3x4) 0 0 = ALIVE ->
        (cell (NewGrid w') 0 0 = DEAD <-> n < 2 \/ n > 3) /\
        (cell (NewGrid w') 0 0 = ALIVE <-> n = 2 \/ n = 3)) /\
     (cell (Grid globals_3x4) 0 0 = DEAD ->
        (cell (NewGrid w') 0 0 = ALIVE <-> n = 3) /\
        (cell (NewGrid w') 0 0 = DEAD <-> n <> 3))).
Proof.
  assert (HR : 1 <= 3 <= INT_MAX) by (unfold INT_MAX; lia).
  assert (HC : 1 <= 4 <= INT_MAX) by (unfold INT_MAX; lia).
  assert (Hg : well_shaped 3 4 (Grid globals_3x4))
    by (split; [reflexivity | repeat constructor]).
  assert (Hs : well_shaped 3 4 (NewGrid globals_3x4))
    by (split; [reflexivity | repeat constructor]).
  assert (Halive : in_range 3 4 0 1) by (unfold in_range; lia).
  assert (Hdead : in_range 3 4 0 0) by (unfold in_range; lia).
  split; [exact HR |]. split; [exact HC |]. split; [exact Hg |].
  split; [exact Hs |]. split.
  - split; [exact Halive |].
    exact (step_applies_rule 3 4 HR HC globals_3x4 0 1 Hg Hs Halive).
  - split; [exact Hdead |].
    exact (step_applies_rule 3 4 HR HC globals_3x4 0 0 Hg Hs Hdead).
Defined.

Lemma getNeighborCount_safe_witness :
  (1 <= 1 <= INT_MAX) /\ (1 <= 3 <= INT_MAX) /\
  well_shaped 1 3 (deref RefGrid globals_1x3) /\ in_range 1 3 0 1 /\
  exists n t,
    getNeighborCount 1 3 RefGrid 0 1 globals_1x3 = Some (n, globals_1x3, t) /\
    t = (fun d => Load RefGrid ((0 + fst d) mod 1) ((1 + snd d) mod 3))
          <$> [(-1, -1); (-1, 0); (-1, 1); (0, -1); (0, 1); (1, -1); (1, 0); (1, 1)] /\
    Forall (fun e => exists r c, e = Load RefGrid r c /\ in_range 1 3 r c) t /\
    n = count_alive (deref RefGrid globals_1x3) (neighbors 1 3 0 1) /\
    0 <= n <= 8.
Proof.
  assert (HR : 1 <= 1 <= INT_MAX) by (unfold INT_MAX; lia).
  assert (HC : 1 <= 3 <= INT_MAX) by (unfold INT_MAX; lia).
  assert (Hg : well_shaped 1 3 (deref RefGrid globals_1x3))
    by (split; [reflexivity | repeat constructor]).
  assert (Hrc : in_range 1 3 0 1) by (unfold in_range; lia).
  split; [exact HR |]. split; [exact HC |]. split; [exact Hg |]. split; [exact Hrc |].
  exact (getNeighborCount_safe 1 3 HR HC RefGrid globals_1x3 0 1 Hg Hrc).
Defined.

Lemma step_deterministic_witness :
  (1 <= 3 <= INT_MAX) /\ (1 <= 4 <= INT_MAX) /\
  Grid globals_3x4 = Grid globals_3x4' /\
  well_shaped 3 4 (Grid globals_3x4) /\ well_shaped 3 4 (NewGrid globals_3x4) /\
  well_shaped 3 4 (NewGrid globals_3x4') /\
  exists w1' w2' t1 t2 u1 u2 s1 s2,
    step 3 4 RefGrid RefNewGrid globals_3x4 = Some (tt, w1', t1) /\
    step 3 4 RefGrid RefNewGrid globals_3x4' = Some (tt, w2', t2) /\
    NewGrid w1' = NewGrid w2' /\
    updateGrid 3 4 RefGrid RefNewGrid globals_3x4 = Some (tt, u1, s1) /\
    updateGrid 3 4 RefGrid RefNewGrid globals_3x4' = Some (tt, u2, s2) /\
    Grid u1 = Grid u2.
Proof.
  assert (HR : 1 <= 3 <= INT_MAX) by (unfold INT_MAX; lia).
  assert (HC : 1 <= 4 <= INT_MAX) by (unfold INT_MAX; lia).
  assert (Hg : well_shaped 3 4 (Grid globals_3x4))
    by (split; [reflexivity | repeat constructor]).
  assert (Hs : well_shaped 3 4 (NewGrid globals_3x4))
    by (split; [reflexivity | repeat constructor]).
  assert (Hs' : well_shaped 3 4 (NewGrid globals_3x4'))
    by (split; [reflexivity | repeat constructor]).
  split; [exact HR |]. split; [exact HC |]. split; [reflexivity |].
  split; [exact Hg |]. split; [exact Hs |]. split; [exact Hs' |].
  exact (step_deterministic 3 4 HR HC globals_3x4 globals_3x4' eq_refl Hg Hs Hs').
Defined.

Lemma step_reads_current_writes_staging_witness :
  (1 <= 3 <= INT_MAX) /\ (1 <= 4 <= INT_MAX) /\
  well_shaped 3 4 (Grid globals_3x4') /\ well_shaped 3 4 (NewGrid globals_3x4') /\
  exists w' t,
    step 3 4 RefGrid RefNewGrid globals_3x4' = Some (tt, w', t) /\
    Forall (fun e => match e with
                     | Load b _ _ => b = RefGrid
                     | Store b _ _ _ => b = RefNewGrid
                     | CopyAssign _ _ => False
                     end) t /\
    Grid w' = Grid globals_3x4' /\
    NewGrid w' = next_generation 3 4 (Grid globals_3x4').
Proof.
  assert (HR : 1 <= 3 <= INT_MAX) by (unfold INT_MAX; lia).
  assert (HC : 1 <= 4 <= INT_MAX) by (unfold INT_MAX; lia).
  assert (Hg : well_shaped 3 4 (Grid globals_3x4'))
    by (split; [reflexivity | repeat constructor]).
  assert (Hs : well_shaped 3 4 (NewGrid globals_3x4'))
    by (split; [reflexivity | repeat constructor]).
  split; [exact HR |]. split; [exact HC |]. split; [exact Hg |]. split; [exact Hs |].
  exact (step_reads_current_writes_staging 3 4 HR HC globals_3x4' Hg Hs).
Defined.

Lemma commit_makes_current_staging_witness :
  (1 <= 3 <= INT_MAX) /\ (1 <= 4 <= INT_MAX) /\
  well_shaped 3 4 (Grid globals_3x4') /\ well_shaped 3 4 (NewGrid globals_3x4') /\
  exists w1 t1 w2 t2,
    step 3 4 RefGrid RefNewGrid globals_3x4' = Some (tt, w1, t1) /\
    commit RefGrid RefNewGrid w1 = Some (tt, w2, t2) /\
    updateGrid 3 4 RefGrid RefNewGrid globals_3x4' = Some (tt, w2, t1 ++ t2) /\
    Grid w2 = NewGrid w1 /\
    (forall r c, in_range 3 4 r c ->
       exists v, load RefNewGrid r c w1 = Some (v, w1, [Load RefNewGrid r c]) /\
                 load RefGrid r c w2 = Some (v, w2, [Load RefGrid r c])) /\
    (forall old, exists u tu,
       commit RefGrid RefNewGrid (assign_ref RefGrid old w1) = Some (tt, u, tu) /\
       Grid u = Grid w2).
Proof.
  assert (HR : 1 <= 3 <= INT_MAX) by (unfold INT_MAX; lia).
  assert (HC : 1 <= 4 <= INT_MAX) by (unfold INT_MAX; lia).
  assert (Hg : well_shaped 3 4 (Grid globals_3x4'))
    by (split; [reflexivity | repeat constructor]).
  assert (Hs : well_shaped 3 4 (NewGrid globals_3x4'))
    by (split; [reflexivity | repeat constructor]).
  split; [exact HR |]. split; [exact HC |]. split; [exact Hg |]. split; [exact Hs |].
  exact (commit_makes_current_staging 3 4 HR HC globals_3x4' Hg Hs).
Defined.

Lemma empty_grid_stable_witness :
  (1 <= 3 <= INT_MAX) /\ (1 <= 4 <= INT_MAX) /\
  well_shaped 3 4 (Grid empty_3x4) /\ well_shaped 3 4 (NewGrid empty_3x4) /\
  (forall r c, in_range 3 4 r c -> matrix_get (Grid empty_3x4) r c = Some DEAD) /\
  exists w1 t1 w2 t2,
    step 3 4 RefGrid RefNewGrid empty_3x4 = Some (tt, w1, t1) /\
    (forall r c, in_range 3 4 r c -> matrix_get (NewGrid w1) r c = Some DEAD) /\
    updateGrid 3 4 RefGrid RefNewGrid empty_3x4 = Some (tt, w2, t2) /\
    (forall r c, in_range 3 4 r c -> matrix_get (Grid w2) r c = Some DEAD).
Proof.
  assert (HR : 1 <= 3 <= INT_MAX) by (unfold INT_MAX; lia).
  assert (HC : 1 <= 4 <= INT_MAX) by (unfold INT_MAX; lia).
  assert (Hg : well_shaped 3 4 (Grid empty_3x4))
    by (split; [reflexivity | repeat constructor]).
  assert (Hs : well_shaped 3 4 (NewGrid empty_3x4))
    by (split; [reflexivity | repeat constructor]).
  assert (Hdead : forall r c, in_range 3 4 r c ->
            matrix_get (Grid empty_3x4) r c = Some DEAD).
  { intros r c [Hr Hc].
    assert (Hr' : r = 0 \/ r = 1 \/ r = 2) by lia.
    assert (Hc' : c = 0 \/ c = 1 \/ c = 2 \/ c = 3) by lia.
    destruct Hr' as [-> | [-> | ->]]; destruct Hc' as [-> | [-> | [-> | ->]]];
      reflexivity. }
  split; [exact HR |]. split; [exact HC |]. split; [exact Hg |]. split; [exact Hs |].
  split; [exact Hdead |].
  exact (empty_grid_stable 3 4 HR HC empty_3x4 Hg Hs Hdead).
Defined.

Lemma blinker_oscillates_witness :
  (1 <= 4 <= INT_MAX) /\ (1 <= 4 <= INT_MAX) /\
  4 <= 4 /\ in_range 4 4 0 0 /\
  well_shaped 4 4 (NewGrid blinker_4x4) /\
  alive_exactly 4 4 (Grid blinker_4x4) (blinker_horizontal 4 0 0) /\
  exists w1 t1 w2 t2,
    updateGrid 4 4 RefGrid RefNewGrid blinker_4x4 = Some (tt, w1, t1) /\
    alive_exactly 4 4 (Grid w1) (blinker_vertical 4 0 0) /\
    updateGrid 4 4 RefGrid RefNewGrid w1 = Some (tt, w2, t2) /\
    alive_exactly 4 4 (Grid w2) (blinker_horizontal 4 0 0) /\
    Grid w2 = Grid blinker_4x4.
Proof.
  assert (HR : 1 <= 4 <= INT_MAX) by (unfold INT_MAX; lia).
  assert (H4 : 4 <= 4) by lia.
  assert (Hrc : in_range 4 4 0 0) by (unfold in_range; lia).
  assert (Hs : well_shaped 4 4 (NewGrid blinker_4x4))
    by (split; [reflexivity | repeat constructor]).
  assert (Hh : alive_exactly 4 4 (Grid blinker_4x4) (blinker_horizontal 4 0 0)).
  { split; [split; [reflexivity | repeat constructor] |].
    intros r c [Hr Hc].
    assert (Hr' : r = 0 \/ r = 1 \/ r = 2 \/ r = 3) by lia.
    assert (Hc' : c = 0 \/ c = 1 \/ c = 2 \/ c = 3) by lia.
    destruct Hr' as [-> | [-> | [-> | ->]]]; destruct Hc' as [-> | [-> | [-> | ->]]];
      reflexivity. }
  split; [exact HR |]. split; [exact HR |]. split; [exact H4 |]. split; [exact Hrc |].
  split; [exact Hs |]. split; [exact Hh |].
  exact (blinker_oscillates 4 4 HR HR blinker_4x4 0 0 H4 H4 Hrc Hs Hh).
Defined.

Lemma binary_invariant_witness :
  (1 <= 3 <= INT_MAX) /\ (1 <= 4 <= INT_MAX) /\
  grid_invariant 3 4 (initial_globals 3 4) /\
  (exists w' t,
     run_operation 3 4 sample_rand OpSeed (initial_globals 3 4) = Some (tt, w', t) /\
     grid_invariant 3 4 w') /\
  (exists w' t,
     run_operation 3 4 sample_rand OpUpdate (initial_globals 3 4) = Some (tt, w', t) /\
     grid_invariant 3 4 w').
Proof.
  assert (HR : 1 <= 3 <= INT_MAX) by (unfold INT_MAX; lia).
  assert (HC : 1 <= 4 <= INT_MAX) by (unfold INT_MAX; lia).
  destruct (binary_invariant 3 4 sample_rand HR HC) as [Hinit Hpres].
  split; [exact HR |]. split; [exact HC |]. split; [exact Hinit |].
  split; [exact (Hpres OpSeed _ Hinit) | exact (Hpres OpUpdate _ Hinit)].
Defined.

Lemma events_toggle_and_reseed_witness :
  (1 <= 3 <= INT_MAX) /\ (1 <= 4 <= INT_MAX) /\
  well_shaped 3 4 (Grid globals_3x4) /\
  SDL_AppEvent 3 4 sample_rand paused_app (SDL_EVENT_KEY_DOWN SDLK_SPACE) globals_3x4
    = Some ((SDL_APP_CONTINUE,
             mkApplication (window paused_app) (renderer paused_app) (status paused_app)
                           (negb (runSimulation paused_app))), globals_3x4, []) /\
  exists w' t,
    initGrid 3 4 sample_rand RefGrid globals_3x4 = Some (tt, w', t) /\
    SDL_AppEvent 3 4 sample_rand paused_app (SDL_EVENT_KEY_DOWN SDLK_R) globals_3x4
      = Some ((SDL_APP_CONTINUE, paused_app), w', t) /\
    Grid w' = tabulate 3 4 (seeded 4 sample_rand (rand_calls globals_3x4)) /\
    NewGrid w' = NewGrid globals_3x4.
Proof.
  assert (HR : 1 <= 3 <= INT_MAX) by (unfold INT_MAX; lia).
  assert (HC : 1 <= 4 <= INT_MAX) by (unfold INT_MAX; lia).
  assert (Hg : well_shaped 3 4 (Grid globals_3x4))
    by (split; [reflexivity | repeat constructor]).
  split; [exact HR |]. split; [exact HC |]. split; [exact Hg |].
  exact (events_toggle_and_reseed 3 4 sample_rand HR HC paused_app globals_3x4 Hg).
Defined.

Lemma staging_equals_current_after_update_witness :
  (1 <= 3 <= INT_MAX) /\ (1 <= 4 <= INT_MAX) /\
  well_shaped 3 4 (Grid globals_3x4') /\ well_shaped 3 4 (NewGrid globals_3x4') /\
  (exists w' t,
     updateGrid 3 4 RefGrid RefNewGrid globals_3x4' = Some (tt, w', t) /\
     NewGrid w' = Grid w' /\
     Grid w' = next_generation 3 4 (Grid globals_3x4') /\
     forall r c, matrix_get (NewGrid w') r c = matrix_get (Grid w') r c) /\
  runSimulation running_app = true /\
  exists res w' t,
    SDL_AppIterate 3 4 running_app globals_3x4' = Some (res, w', t) /\
    NewGrid w' = Grid w' /\
    Grid w' = next_generation 3 4 (Grid globals_3x4').
Proof.
  assert (HR : 1 <= 3 <= INT_MAX) by (unfold INT_MAX; lia).
  assert (HC : 1 <= 4 <= INT_MAX) by (unfold INT_MAX; lia).
  assert (Hg : well_shaped 3 4 (Grid globals_3x4'))
    by (split; [reflexivity | repeat constructor]).
  assert (Hs : well_shaped 3 4 (NewGrid globals_3x4'))
    by (split; [reflexivity | repeat constructor]).
  destruct (staging_equals_current_after_update 3 4 HR HC running_app globals_3x4' Hg Hs)
    as [Hupdate Hiterate].
  split; [exact HR |]. split; [exact HC |]. split; [exact Hg |]. split; [exact Hs |].
  split; [exact Hupdate |]. split; [reflexivity |].
  exact (Hiterate eq_refl).
Defined.

(** The bound of 4 in [blinker_oscillates] cannot be lowered: on a 3 x 3
    torus the line of three is its own left and right neighbour, every
    dead cell sees three live ones, and one generation fills the grid. *)
Example line_3x3_fills_the_torus :
  (fun res => Grid (snd (fst res))) <$> updateGrid 3 3 RefGrid RefNewGrid line_3x3
  = Some [[1; 1; 1]; [1; 1; 1]; [1; 1; 1]].
Proof. reflexivity. Qed.

(** The buffers of the shipped 450 x 800 configuration start within the
    invariant. *)
Lemma shipped_initial_invariant :
  grid_invariant Settings.Rows Settings.Columns
    (initial_globals Settings.Rows Settings.Columns).
Proof.
  split; (split; [apply zero_matrix_well_shaped | apply zero_matrix_binary]).
Qed.

(** Why there are two buffers: run on one buffer in both roles, the loops
    read cells they have already overwritten and the blinker is lost. *)
Example updateGrid_in_place_differs :
  (fun res => Grid (snd (fst res))) <$> updateGrid 4 4 RefGrid RefNewGrid blinker_4x4
  = Some [[1; 0; 0; 0]; [1; 0; 0; 0]; [0; 0; 0; 0]; [1; 0; 0; 0]] /\
  (fun res => Grid (snd (fst res))) <$> updateGrid 4 4 RefGrid RefGrid blinker_4x4
  = Some [[1; 0; 0; 0]; [0; 0; 0; 0]; [0; 0; 0; 0]; [0; 0; 0; 0]].
Proof. split; reflexivity. Qed.

(** * The rest of the program on small configurations *)

(** In the shipped configuration the grid tiles the window exactly, so
    [drawGrid] fills a rectangle for every non-zero cell, and every
    rectangle it fills lies within the 1600 x 900 window and is [CellSize]
    pixels wide and high. *)
Theorem shipped_frame_within_window (grid : ref) (w : Globals) :
  well_shaped Settings.Rows Settings.Columns (deref grid w) ->
  exists rects t,
    drawGrid Settings.Rows Settings.Columns grid w = Some (rects, w, t) /\
    (forall r c, in_range Settings.Rows Settings.Columns r c ->
       cell (deref grid w) r c <> DEAD ->
       mkFRect (c * Settings.CellSize) (r * Settings.CellSize)
               Settings.CellSize Settings.CellSize ∈ rects) /\
    Forall (fun rect =>
              0 <= Rect.x rect /\ Rect.x rect + Rect.w rect <= Settings.WindowWidth /\
              0 <= Rect.y rect /\ Rect.y rect + Rect.h rect <= Settings.WindowHeight /\
              Rect.w rect = Settings.CellSize /\ Rect.h rect = Settings.CellSize)
           rects.
Proof.
  intros Hg.
  destruct Settings_dimensions as (_ & _ & HR & HC).
  destruct (drawGrid_returns _ _ HR HC grid w Hg) as (t & Hrun & _).
  eexists _, t. split; [exact Hrun |]. split.
  - intros r c Hrc Halive. apply elem_of_live_rects; [exact HR | exact HC |].
    exists r, c. split; [exact Hrc |]. split; [exact Halive | reflexivity].
  - eapply Forall_impl; [apply (live_rects_bounds _ _ HR HC) |].
    intros rect Hrect. simpl in Hrect.
    assert (Hwidth : Settings.Columns * Settings.CellSize = Settings.WindowWidth)
      by reflexivity.
    assert (Hheight : Settings.Rows * Settings.CellSize = Settings.WindowHeight)
      by reflexivity.
    rewrite Hwidth, Hheight in Hrect. exact Hrect.
Qed.

Ltac dims := unfold INT_MIN, INT_MAX; lia.
Ltac shaped := split; [reflexivity | repeat constructor].
Ltac each_cell_3x3 :=
  let r := fresh "r" in let c := fresh "c" in
  let Hr := fresh "Hr" in let Hc := fresh "Hc" in
  intros r c [Hr Hc];
  assert (r = 0 \/ r = 1 \/ r = 2) as [-> | [-> | ->]] by lia;
  assert (c = 0 \/ c = 1 \/ c = 2) as [-> | [-> | ->]] by lia.
Ltac each_cell_3x4 :=
  let r := fresh "r" in let c := fresh "c" in
  let Hr := fresh "Hr" in let Hc := fresh "Hc" in
  intros r c [Hr Hc];
  assert (r = 0 \/ r = 1 \/ r = 2) as [-> | [-> | ->]] by lia;
  assert (c = 0 \/ c = 1 \/ c = 2 \/ c = 3) as [-> | [-> | [-> | ->]]] by lia.
Ltac each_cell_4x4 :=
  let r := fresh "r" in let c := fresh "c" in
  let Hr := fresh "Hr" in let Hc := fresh "Hc" in
  intros r c [Hr Hc];
  assert (r = 0 \/ r = 1 \/ r = 2 \/ r = 3) as [-> | [-> | [-> | ->]]] by lia;
  assert (c = 0 \/ c = 1 \/ c = 2 \/ c = 3) as [-> | [-> | [-> | ->]]] by lia.


Lemma shipped_frame_within_window_witness :
  well_shaped Settings.Rows Settings.Columns
    (deref RefGrid
       (mkGlobals (corner_grid Settings.Rows Settings.Columns)
                  (zero_matrix Settings.Rows Settings.Columns) 0)) /\
  exists rects t,
    (drawGrid Settings.Rows Settings.Columns RefGrid
       (mkGlobals (corner_grid Settings.Rows Settings.Columns)
                  (zero_matrix Settings.Rows Settings.Columns) 0)
     = Some (rects,
             mkGlobals (corner_grid Settings.Rows Settings.Columns)
                       (zero_matrix Settings.Rows Settings.Columns) 0, t) /\
     (forall r c, in_range Settings.Rows Settings.Columns r c ->
        cell (deref RefGrid
                (mkGlobals (corner_grid Settings.Rows Settings.Columns)
                           (zero_matrix Settings.Rows Settings.Columns) 0)) r c <> DEAD ->
        mkFRect (c * Settings.CellSize) (r * Settings.CellSize)
                Settings.CellSize Settings.CellSize ∈ rects) /\
     Forall (fun rect =>
               0 <= Rect.x rect /\ Rect.x rect + Rect.w rect <= Settings.WindowWidth /\
               0 <= Rect.y rect /\ Rect.y rect + Rect.h rect <= Settings.WindowHeight /\
               Rect.w rect = Settings.CellSize /\ Rect.h rect = Settings.CellSize)
            rects) /\
    mkFRect 1598 898 2 2 ∈ rects.
Proof.
  assert (Hg : well_shaped Settings.Rows Settings.Columns
                 (deref RefGrid
                    (mkGlobals (corner_grid Settings.Rows Settings.Columns)
                               (zero_matrix Settings.Rows Settings.Columns) 0)))
    by exact (tabulate_well_shaped Settings.Rows Settings.Columns _).
  assert (Hrc : in_range Settings.Rows Settings.Columns 449 799)
    by (unfold in_range; change Settings.Rows with 450; change Settings.Columns with 800; lia).
  assert (Halive : cell (corner_grid Settings.Rows Settings.Columns) 449 799 <> DEAD).
  { unfold corner_grid. rewrite cell_tabulate by exact Hrc.
    change Settings.Rows with 450. change Settings.Columns with 800.
    simpl. discriminate. }
  split; [exact Hg |].
  destruct (shipped_frame_within_window RefGrid _ Hg) as (rects & t & Hrun & Hall & Hbounds).
  exists rects, t. split; [split; [exact Hrun |]; split; [exact Hall | exact Hbounds] |].
  exact (Hall 449 799 Hrc Halive).
Defined.

Lemma wrap_index_one_lap_witness :
  (1 <= 450 <= INT_MAX) /\ (INT_MIN <= -450 + 0 <= INT_MAX) /\
  0 <= wrap_index (-450) 0 450 < 450 /\
  (- 450 <= -450 + 0 -> wrap_index (-450) 0 450 = (-450 + 0) mod 450).
Proof.
  assert (Hn : 1 <= 450 <= INT_MAX) by dims.
  assert (Hsum : INT_MIN <= -450 + 0 <= INT_MAX) by dims.
  split; [exact Hn |]. split; [exact Hsum |].
  exact (wrap_index_one_lap (-450) 0 450 Hn Hsum).
Defined.

(** Two laps below the edge the unsigned sum wraps at 2^32 first, and the
    index is no longer the residue (though still in range). *)
Example wrap_index_two_laps :
  wrap_index (-1000) 0 450 = 246 /\ (-1000 + 0) mod 450 = 350.
Proof. split; reflexivity. Qed.

Lemma getNeighborCount_any_cell_witness :
  (1 <= 3 <= INT_MAX) /\ (1 <= 4 <= INT_MAX) /\
  well_shaped 3 4 (deref RefGrid globals_3x4) /\
  INT_MIN < -7 < INT_MAX /\ INT_MIN < 100 < INT_MAX /\
  exists n t,
    getNeighborCount 3 4 RefGrid (-7) 100 globals_3x4 = Some (n, globals_3x4, t) /\
    length t = 8%nat /\
    Forall (fun e => exists r c, e = Load RefGrid r c /\ in_range 3 4 r c) t /\
    0 <= n <= 8.
Proof.
  assert (HR : 1 <= 3 <= INT_MAX) by dims.
  assert (HC : 1 <= 4 <= INT_MAX) by dims.
  assert (Hg : well_shaped 3 4 (deref RefGrid globals_3x4)) by shaped.
  assert (Hrow : INT_MIN < -7 < INT_MAX) by dims.
  assert (Hcol : INT_MIN < 100 < INT_MAX) by dims.
  split; [exact HR |]. split; [exact HC |]. split; [exact Hg |].
  split; [exact Hrow |]. split; [exact Hcol |].
  exact (getNeighborCount_any_cell 3 4 HR HC RefGrid globals_3x4 (-7) 100 Hg Hrow Hcol).
Defined.

Lemma getNeighborCount_distinct_cells_witness :
  (1 <= 3 <= INT_MAX) /\ (1 <= 4 <= INT_MAX) /\ 3 <= 3 /\ 3 <= 4 /\
  well_shaped 3 4 (deref RefGrid globals_3x4) /\ in_range 3 4 0 3 /\
  exists n t,
    getNeighborCount 3 4 RefGrid 0 3 globals_3x4 = Some (n, globals_3x4, t) /\
    NoDup t /\
    Load RefGrid 0 3 ∉ t.
Proof.
  assert (HR : 1 <= 3 <= INT_MAX) by dims.
  assert (HC : 1 <= 4 <= INT_MAX) by dims.
  assert (H3 : 3 <= 3) by lia.
  assert (H4 : 3 <= 4) by lia.
  assert (Hg : well_shaped 3 4 (deref RefGrid globals_3x4)) by shaped.
  assert (Hrc : in_range 3 4 0 3) by (unfold in_range; lia).
  split; [exact HR |]. split; [exact HC |]. split; [exact H3 |]. split; [exact H4 |].
  split; [exact Hg |]. split; [exact Hrc |].
  exact (getNeighborCount_distinct_cells 3 4 HR HC RefGrid globals_3x4 0 3 H3 H4 Hg Hrc).
Defined.

Lemma single_cell_torus_dies_witness :
  (1 <= 1 <= INT_MAX) /\ 1 = 1 /\
  well_shaped 1 1 (Grid globals_1x1) /\ well_shaped 1 1 (NewGrid globals_1x1) /\
  exists w' t tn,
    getNeighborCount 1 1 RefGrid 0 0 globals_1x1
      = Some (if truthy (cell (Grid globals_1x1) 0 0) then 8 else 0, globals_1x1, tn) /\
    updateGrid 1 1 RefGrid RefNewGrid globals_1x1 = Some (tt, w', t) /\
    Grid w' = [[DEAD]].
Proof.
  assert (HR : 1 <= 1 <= INT_MAX) by dims.
  assert (Hg : well_shaped 1 1 (Grid globals_1x1)) by shaped.
  assert (Hs : well_shaped 1 1 (NewGrid globals_1x1)) by shaped.
  split; [exact HR |]. split; [reflexivity |]. split; [exact Hg |]. split; [exact Hs |].
  exact (single_cell_torus_dies 1 1 HR HR globals_1x1 eq_refl eq_refl Hg Hs).
Defined.

Lemma lone_cell_dies_witness :
  (1 <= 3 <= INT_MAX) /\ 3 <= 3 /\ in_range 3 3 1 1 /\
  well_shaped 3 3 (NewGrid lone_3x3) /\
  alive_exactly 3 3 (Grid lone_3x3) [(1, 1)] /\
  exists w' t,
    updateGrid 3 3 RefGrid RefNewGrid lone_3x3 = Some (tt, w', t) /\
    forall i j, in_range 3 3 i j -> matrix_get (Grid w') i j = Some DEAD.
Proof.
  assert (HR : 1 <= 3 <= INT_MAX) by dims.
  assert (H3 : 3 <= 3) by lia.
  assert (Hrc : in_range 3 3 1 1) by (unfold in_range; lia).
  assert (Hs : well_shaped 3 3 (NewGrid lone_3x3)) by shaped.
  assert (Ha : alive_exactly 3 3 (Grid lone_3x3) [(1, 1)]).
  { split; [shaped |]. each_cell_3x3; reflexivity. }
  split; [exact HR |]. split; [exact H3 |]. split; [exact Hrc |].
  split; [exact Hs |]. split; [exact Ha |].
  exact (lone_cell_dies 3 3 HR HR lone_3x3 1 1 H3 H3 Hrc Hs Ha).
Defined.

Lemma block_still_life_witness :
  (1 <= 4 <= INT_MAX) /\ 3 <= 4 /\ in_range 4 4 3 3 /\
  well_shaped 4 4 (NewGrid block_4x4) /\
  alive_exactly 4 4 (Grid block_4x4) (block 4 4 3 3) /\
  exists w' t,
    updateGrid 4 4 RefGrid RefNewGrid block_4x4 = Some (tt, w', t) /\
    Grid w' = Grid block_4x4.
Proof.
  assert (HR : 1 <= 4 <= INT_MAX) by dims.
  assert (H3 : 3 <= 4) by lia.
  assert (Hrc : in_range 4 4 3 3) by (unfold in_range; lia).
  assert (Hs : well_shaped 4 4 (NewGrid block_4x4)) by shaped.
  assert (Ha : alive_exactly 4 4 (Grid block_4x4) (block 4 4 3 3)).
  { split; [shaped |]. each_cell_4x4; reflexivity. }
  split; [exact HR |]. split; [exact H3 |]. split; [exact Hrc |].
  split; [exact Hs |]. split; [exact Ha |].
  exact (block_still_life 4 4 HR HR block_4x4 3 3 H3 H3 Hrc Hs Ha).
Defined.

Lemma updateGrid_commutes_with_shift_witness :
  (1 <= 3 <= INT_MAX) /\ (1 <= 4 <= INT_MAX) /\
  well_shaped 3 4 (NewGrid globals_3x4) /\ well_shaped 3 4 (NewGrid moved_3x4) /\
  shifted 3 4 1 1 (Grid globals_3x4) (Grid moved_3x4) /\
  exists w1' w2' t1 t2,
    updateGrid 3 4 RefGrid RefNewGrid globals_3x4 = Some (tt, w1', t1) /\
    updateGrid 3 4 RefGrid RefNewGrid moved_3x4 = Some (tt, w2', t2) /\
    shifted 3 4 1 1 (Grid w1') (Grid w2').
Proof.
  assert (HR : 1 <= 3 <= INT_MAX) by dims.
  assert (HC : 1 <= 4 <= INT_MAX) by dims.
  assert (Hs1 : well_shaped 3 4 (NewGrid globals_3x4)) by shaped.
  assert (Hs2 : well_shaped 3 4 (NewGrid moved_3x4)) by shaped.
  assert (Hshift : shifted 3 4 1 1 (Grid globals_3x4) (Grid moved_3x4)).
  { split; [shaped |]. split; [shaped |]. each_cell_3x4; reflexivity. }
  split; [exact HR |]. split; [exact HC |]. split; [exact Hs1 |]. split; [exact Hs2 |].
  split; [exact Hshift |].
  exact (updateGrid_commutes_with_shift 3 4 HR HC 1 1 globals_3x4 moved_3x4 Hs1 Hs2 Hshift).
Defined.

Lemma SDL_AppInit_outcomes_witness :
  (1 <= 3 <= INT_MAX) /\ (1 <= 4 <= INT_MAX) /\
  well_shaped 3 4 (Grid (initial_globals 3 4)) /\
  SDL_AppInit 3 4 sample_rand true false 1 2 (initial_globals 3 4)
    = Some ((SDL_APP_FAILURE, None), initial_globals 3 4, []) /\
  exists w' t,
    SDL_AppInit 3 4 sample_rand true true 1 2 (initial_globals 3 4)
      = Some ((SDL_APP_CONTINUE, Some (mkApplication 1 2 SDL_APP_CONTINUE true)), w', t) /\
    Grid w' = tabulate 3 4 (seeded 4 sample_rand (rand_calls (initial_globals 3 4))) /\
    NewGrid w' = NewGrid (initial_globals 3 4) /\
    rand_calls w' = (rand_calls (initial_globals 3 4) + Z.to_nat (3 * 4))%nat.
Proof.
  assert (HR : 1 <= 3 <= INT_MAX) by dims.
  assert (HC : 1 <= 4 <= INT_MAX) by dims.
  assert (Hg : well_shaped 3 4 (Grid (initial_globals 3 4))) by shaped.
  split; [exact HR |]. split; [exact HC |]. split; [exact Hg |]. split.
  - exact (proj1 (SDL_AppInit_outcomes 3 4 sample_rand HR HC true false 1 2
                    (initial_globals 3 4) Hg) eq_refl).
  - exact (proj2 (SDL_AppInit_outcomes 3 4 sample_rand HR HC true true 1 2
                    (initial_globals 3 4) Hg) eq_refl).
Defined.

Lemma quit_is_reported_by_the_next_frame_witness :
  (1 <= 3 <= INT_MAX) /\ (1 <= 4 <= INT_MAX) /\
  well_shaped 3 4 (Grid globals_3x4) /\ well_shaped 3 4 (NewGrid globals_3x4) /\
  exists app' rects td w' t,
    app' = mkApplication (window running_app) (renderer running_app) SDL_APP_SUCCESS
                         (runSimulation running_app) /\
    SDL_AppEvent 3 4 sample_rand running_app SDL_EVENT_QUIT globals_3x4
      = Some ((SDL_APP_CONTINUE, app'), globals_3x4, []) /\
    drawGrid 3 4 RefGrid globals_3x4 = Some (rects, globals_3x4, td) /\
    SDL_AppIterate 3 4 app' globals_3x4 = Some ((SDL_APP_SUCCESS, rects), w', t) /\
    (runSimulation running_app = true -> Grid w' = next_generation 3 4 (Grid globals_3x4)) /\
    (runSimulation running_app = false -> w' = globals_3x4 /\ t = td).
Proof.
  assert (HR : 1 <= 3 <= INT_MAX) by dims.
  assert (HC : 1 <= 4 <= INT_MAX) by dims.
  assert (Hg : well_shaped 3 4 (Grid globals_3x4)) by shaped.
  assert (Hs : well_shaped 3 4 (NewGrid globals_3x4)) by shaped.
  split; [exact HR |]. split; [exact HC |]. split; [exact Hg |]. split; [exact Hs |].
  exact (quit_is_reported_by_the_next_frame 3 4 sample_rand HR HC running_app
           globals_3x4 Hg Hs).
Defined.

Lemma SDL_AppIterate_frame_witness :
  (1 <= 3 <= INT_MAX) /\ (1 <= 4 <= INT_MAX) /\
  well_shaped 3 4 (Grid globals_3x4) /\ well_shaped 3 4 (NewGrid globals_3x4) /\
  exists rects td w' t,
    drawGrid 3 4 RefGrid globals_3x4 = Some (rects, globals_3x4, td) /\
    SDL_AppIterate 3 4 paused_app globals_3x4 = Some ((status paused_app, rects), w', t) /\
    (runSimulation paused_app = true -> Grid w' = next_generation 3 4 (Grid globals_3x4)) /\
    (runSimulation paused_app = false -> w' = globals_3x4 /\ t = td).
Proof.
  assert (HR : 1 <= 3 <= INT_MAX) by dims.
  assert (HC : 1 <= 4 <= INT_MAX) by dims.
  assert (Hg : well_shaped 3 4 (Grid globals_3x4)) by shaped.
  assert (Hs : well_shaped 3 4 (NewGrid globals_3x4)) by shaped.
  split; [exact HR |]. split; [exact HC |]. split; [exact Hg |]. split; [exact Hs |].
  exact (SDL_AppIterate_frame 3 4 HR HC paused_app globals_3x4 Hg Hs).
Defined.

Lemma paused_frames_change_nothing_witness :
  (1 <= 3 <= INT_MAX) /\ (1 <= 4 <= INT_MAX) /\
  runSimulation paused_app = false /\ well_shaped 3 4 (Grid globals_3x4) /\
  exists t,
    run_callbacks 3 4 sample_rand paused_app (replicate 3 OnIterate) globals_3x4
      = Some (paused_app, globals_3x4, t) /\
    Forall (fun e => exists r c, e = Load RefGrid r c /\ in_range 3 4 r c) t.
Proof.
  assert (HR : 1 <= 3 <= INT_MAX) by dims.
  assert (HC : 1 <= 4 <= INT_MAX) by dims.
  assert (Hg : well_shaped 3 4 (Grid globals_3x4)) by shaped.
  split; [exact HR |]. split; [exact HC |]. split; [reflexivity |]. split; [exact Hg |].
  exact (paused_frames_change_nothing 3 4 sample_rand HR HC paused_app 3 globals_3x4
           eq_refl Hg).
Defined.

Lemma running_frames_advance_generations_witness :
  (1 <= 3 <= INT_MAX) /\ (1 <= 4 <= INT_MAX) /\
  runSimulation running_app = true /\
  well_shaped 3 4 (Grid globals_3x4) /\ well_shaped 3 4 (NewGrid globals_3x4) /\
  exists w' t,
    run_callbacks 3 4 sample_rand running_app (replicate 2 OnIterate) globals_3x4
      = Some (running_app, w', t) /\
    Grid w' = generations 3 4 2 (Grid globals_3x4) /\
    rand_calls w' = rand_calls globals_3x4.
Proof.
  assert (HR : 1 <= 3 <= INT_MAX) by dims.
  assert (HC : 1 <= 4 <= INT_MAX) by dims.
  assert (Hg : well_shaped 3 4 (Grid globals_3x4)) by shaped.
  assert (Hs : well_shaped 3 4 (NewGrid globals_3x4)) by shaped.
  split; [exact HR |]. split; [exact HC |]. split; [reflexivity |].
  split; [exact Hg |]. split; [exact Hs |].
  exact (running_frames_advance_generations 3 4 sample_rand HR HC running_app 2
           globals_3x4 eq_refl Hg Hs).
Defined.

Lemma pause_and_resume_witness :
  (1 <= 3 <= INT_MAX) /\ (1 <= 4 <= INT_MAX) /\
  runSimulation running_app = true /\ well_shaped 3 4 (Grid globals_3x4) /\
  exists t,
    run_callbacks 3 4 sample_rand running_app
      (OnEvent (SDL_EVENT_KEY_DOWN SDLK_SPACE) :: replicate 2 OnIterate
       ++ [OnEvent (SDL_EVENT_KEY_DOWN SDLK_SPACE)]) globals_3x4
    = Some (running_app, globals_3x4, t).
Proof.
  assert (HR : 1 <= 3 <= INT_MAX) by dims.
  assert (HC : 1 <= 4 <= INT_MAX) by dims.
  assert (Hg : well_shaped 3 4 (Grid globals_3x4)) by shaped.
  split; [exact HR |]. split; [exact HC |]. split; [reflexivity |]. split; [exact Hg |].
  exact (pause_and_resume 3 4 sample_rand HR HC running_app 2 globals_3x4 eq_refl Hg).
Defined.

Lemma grid_invariant_globals_3x4 : grid_invariant 3 4 globals_3x4.
Proof.
  split; (split; [shaped |]); each_cell_3x4; (left; reflexivity) || (right; reflexivity).
Defined.

Lemma quit_request_is_kept_witness :
  (1 <= 3 <= INT_MAX) /\ (1 <= 4 <= INT_MAX) /\
  status quitting_app = SDL_APP_SUCCESS /\ grid_invariant 3 4 globals_3x4 /\
  exists app' w' t,
    run_callbacks 3 4 sample_rand quitting_app
      [OnEvent (SDL_EVENT_KEY_DOWN SDLK_R); OnIterate; OnEvent SDL_EVENT_OTHER] globals_3x4
    = Some (app', w', t) /\
    status app' = SDL_APP_SUCCESS.
Proof.
  assert (HR : 1 <= 3 <= INT_MAX) by dims.
  assert (HC : 1 <= 4 <= INT_MAX) by dims.
  split; [exact HR |]. split; [exact HC |]. split; [reflexivity |].
  split; [exact grid_invariant_globals_3x4 |].
  exact (quit_request_is_kept 3 4 sample_rand HR HC _ quitting_app globals_3x4
           eq_refl grid_invariant_globals_3x4).
Defined.

Lemma run_callbacks_invariant_witness :
  (1 <= 3 <= INT_MAX) /\ (1 <= 4 <= INT_MAX) /\
  grid_invariant 3 4 globals_3x4 /\
  exists app' w' t,
    run_callbacks 3 4 sample_rand running_app
      [OnIterate; OnEvent (SDL_EVENT_KEY_DOWN SDLK_R); OnIterate] globals_3x4
    = Some (app', w', t) /\
    grid_invariant 3 4 w'.
Proof.
  assert (HR : 1 <= 3 <= INT_MAX) by dims.
  assert (HC : 1 <= 4 <= INT_MAX) by dims.
  split; [exact HR |]. split; [exact HC |].
  split; [exact grid_invariant_globals_3x4 |].
  exact (run_callbacks_invariant 3 4 sample_rand HR HC _ running_app globals_3x4
           grid_invariant_globals_3x4).
Defined.

Lemma initGrid_overwrites_witness :
  (1 <= 3 <= INT_MAX) /\ (1 <= 4 <= INT_MAX) /\
  well_shaped 3 4 (deref RefGrid globals_3x4') /\
  exists w' t,
    initGrid 3 4 sample_rand RefGrid globals_3x4' = Some (tt, w', t) /\
    (forall r c, in_range 3 4 r c ->
       matrix_get (deref RefGrid w') r c
       = Some (if Z.rem (sample_rand (rand_calls globals_3x4' + Z.to_nat (r * 4 + c))%nat)
                        100 <? 10
               then ALIVE else DEAD)) /\
    rand_calls w' = (rand_calls globals_3x4' + Z.to_nat (3 * 4))%nat /\
    (forall b, b <> RefGrid -> deref b w' = deref b globals_3x4') /\
    Forall (fun e => exists r c v, e = Store RefGrid r c v /\ in_range 3 4 r c) t.
Proof.
  assert (HR : 1 <= 3 <= INT_MAX) by dims.
  assert (HC : 1 <= 4 <= INT_MAX) by dims.
  assert (Hg : well_shaped 3 4 (deref RefGrid globals_3x4')) by shaped.
  split; [exact HR |]. split; [exact HC |]. split; [exact Hg |].
  exact (initGrid_overwrites 3 4 sample_rand HR HC RefGrid globals_3x4' Hg).
Defined.

Lemma updateGrid_access_count_witness :
  (1 <= 3 <= INT_MAX) /\ (1 <= 4 <= INT_MAX) /\
  well_shaped 3 4 (Grid globals_3x4) /\ well_shaped 3 4 (NewGrid globals_3x4) /\
  exists w' t,
    updateGrid 3 4 RefGrid RefNewGrid globals_3x4
      = Some (tt, w', t ++ [CopyAssign RefGrid RefNewGrid]) /\
    count_accesses is_load t = Z.to_nat (9 * (3 * 4)) /\
    count_accesses is_store t = Z.to_nat (3 * 4) /\
    length t = Z.to_nat (10 * (3 * 4)).
Proof.
  assert (HR : 1 <= 3 <= INT_MAX) by dims.
  assert (HC : 1 <= 4 <= INT_MAX) by dims.
  assert (Hg : well_shaped 3 4 (Grid globals_3x4)) by shaped.
  assert (Hs : well_shaped 3 4 (NewGrid globals_3x4)) by shaped.
  split; [exact HR |]. split; [exact HC |]. split; [exact Hg |]. split; [exact Hs |].
  exact (updateGrid_access_count 3 4 HR HC globals_3x4 Hg Hs).
Defined.

Lemma updateGrid_reads_cells_as_conditions_witness :
  (1 <= 3 <= INT_MAX) /\ (1 <= 4 <= INT_MAX) /\
  well_shaped 3 4 (Grid globals_3x4) /\ well_shaped 3 4 (NewGrid globals_3x4) /\
  well_shaped 3 4 (Grid bytes_3x4) /\ well_shaped 3 4 (NewGrid bytes_3x4) /\
  (forall r c, in_range 3 4 r c ->
     (cell (Grid globals_3x4) r c = 0 <-> cell (Grid bytes_3x4) r c = 0)) /\
  exists w1' w2' t1 t2,
    updateGrid 3 4 RefGrid RefNewGrid globals_3x4 = Some (tt, w1', t1) /\
    updateGrid 3 4 RefGrid RefNewGrid bytes_3x4 = Some (tt, w2', t2) /\
    Grid w1' = Grid w2'.
Proof.
  assert (HR : 1 <= 3 <= INT_MAX) by dims.
  assert (HC : 1 <= 4 <= INT_MAX) by dims.
  assert (Hg1 : well_shaped 3 4 (Grid globals_3x4)) by shaped.
  assert (Hs1 : well_shaped 3 4 (NewGrid globals_3x4)) by shaped.
  assert (Hg2 : well_shaped 3 4 (Grid bytes_3x4)) by shaped.
  assert (Hs2 : well_shaped 3 4 (NewGrid bytes_3x4)) by shaped.
  assert (Hsame : forall r c, in_range 3 4 r c ->
            (cell (Grid globals_3x4) r c = 0 <-> cell (Grid bytes_3x4) r c = 0)).
  { each_cell_3x4; vm_compute; split; (reflexivity || discriminate). }
  split; [exact HR |]. split; [exact HC |]. split; [exact Hg1 |]. split; [exact Hs1 |].
  split; [exact Hg2 |]. split; [exact Hs2 |]. split; [exact Hsame |].
  exact (updateGrid_reads_cells_as_conditions 3 4 HR HC globals_3x4 bytes_3x4
           Hg1 Hs1 Hg2 Hs2 Hsame).
Defined.
